(** * farrow / packages/bff/src/codegen.ts

    A shallow embedding of the TypeScript code generator [codegen] and of its
    helpers [attachComment], [getTypeNameById], [getFieldType], [handleType],
    [handleTypes], [handleApi] and [handleEntries], followed by the properties
    of the generator that its specification states.

    Conventions of the embedding.
    - A JavaScript object used as a dictionary ([FormatTypes], the [fields] of
      an Object/Struct, the [entries] of a namespace) is the list of its
      [Object.entries], in iteration order: the generator both looks keys up
      and walks the entries in order, and the order reaches the output.
    - A registry id is held as its property key.  The generator uses a
      numeric id in two ways only, as the key of [types[typeId]] and spliced
      into a template literal, and JavaScript converts the number to the
      same string for both; the model holds that string.  In the same way a
      numeric literal value is held as the text that a template literal
      gives for it.  Floating-point numbers themselves are not modelled.
    - A JavaScript [throw] is the outcome [Throw]; unbounded recursion is
      modelled by a recursion-depth budget (fuel), whose exhaustion is the
      outcome [OutOfFuel].
    - The pretty-printer [prettier.format] is an external collaborator: the
      generator is parameterised by it, and the text handed to it is
      [codegen_source]. *)

From Stdlib Require Import String Ascii List Lia.
From stdpp Require Import base option list list_monad gmap strings.

Set Warnings "-register-all".

Local Open Scope string_scope.

(** ** Data model *)

(** The descriptor and entry types of ./formater and ./toJSON. *)

(** The value of a Literal.  A number is held as [text], the string that
    JavaScript gives for it in a template literal. *)
Inductive LiteralValue : Type :=
| LString (value : string)
| LNumber (text : string)
| LBoolean (value : bool).

(** A registry id, as the property key that JavaScript makes of it. *)
Definition TypeId : Type := string.

Record FormatField : Type := mkField {
  typeId : TypeId;
  description : option string;
  deprecated : option string
}.

Definition FormatFields : Type := list (string * FormatField).

(** The [type] tag of a descriptor together with its payload.  [TOther] stands
    for a descriptor whose tag is none of the known ones. *)
Inductive FormatKind : Type :=
| TAny | TJSON | TString | TBoolean | TFloat | TID | TInt | TNumber
| TRecord (itemTypeId : TypeId)
| TUnknown
| TLiteral (value : LiteralValue)
| TNullable (itemTypeId : TypeId)
| TList (itemTypeId : TypeId)
| TUnion (itemTypeIds : list TypeId)
| TIntersect (itemTypeIds : list TypeId)
| TObject (fields : FormatFields)
| TStruct (fields : FormatFields)
| TOther (tag : string).

Record FormatType : Type := mkType {
  type : FormatKind;
  name : option string
}.

Definition FormatTypes : Type := list (TypeId * FormatType).

Record FormatApi : Type := mkApi {
  input : TypeId;
  output : TypeId;
  api_description : option string;
  api_deprecated : option string
}.

Inductive FormatEntry : Type :=
| Api (api : FormatApi)
| Entries (entries : list (string * FormatEntry)).

Definition FormatEntries : Type := list (string * FormatEntry).

Record FormatResult : Type := mkResult {
  types : FormatTypes;
  entries : FormatEntries
}.

(** What a call can end in. *)
Inductive Error : Type :=
| TypeError
| UnsupportedField (fieldType : FormatType)
| DuplicateName (typeName : string)
| UnsupportedType (formatType : FormatType)
| FormatError.

Inductive result (A : Type) : Type :=
| Ok (a : A)
| Throw (e : Error)
| OutOfFuel.

Arguments Ok {A} a.
Arguments Throw {A} e.
Arguments OutOfFuel {A}.

#[global] Instance result_ret : MRet result := fun A a => Ok a.
#[global] Instance result_bind : MBind result := fun A B k m =>
  match m with
  | Ok a => k a
  | Throw e => Throw e
  | OutOfFuel => OutOfFuel
  end.

(** A call fails when it returns no value: it throws or never returns. *)
Definition fails {A} (r : result A) : Prop := forall a, r <> Ok a.

(** ** JavaScript primitives *)

Definition nl : string := String (ascii_of_nat 10) "".
Definition dquote : string := String (ascii_of_nat 34) "".

(** Truthiness of a string, and of a string that may be [undefined]. *)
Definition truthy (s : string) : bool :=
  match s with
  | EmptyString => false
  | String _ _ => true
  end.

Definition truthy_opt (o : option string) : bool :=
  match o with
  | Some s => truthy s
  | None => false
  end.

(** [Array.prototype.join]. *)
Fixpoint join (sep : string) (l : list string) : string :=
  match l with
  | [] => ""
  | [x] => x
  | x :: rest => x +:+ sep +:+ join sep rest
  end.

(** [types[typeId]]: [None] is JavaScript's [undefined]. *)
Fixpoint types_get (types : FormatTypes) (typeId : TypeId)
    : option FormatType :=
  match types with
  | [] => None
  | (k, t) :: rest =>
      if String.eqb k typeId then Some t else types_get rest typeId
  end.

(** ** ./formater *)

(** Modelled from the spec: [getTypeName] of ./formater is not part of the
    sources at hand.  Section 3 gives every descriptor an optional display
    name; the helper returns it, and nothing when there is none.  Applied to
    [undefined], the descriptor of an id that the registry lacks, it fails
    (section 4.1): [getFieldType] below raises that failure, [TypeError],
    at the lookup. *)
Definition getTypeName (input : FormatType) : option string := name input.

(** Modelled from the spec: [isInlineType] of ./formater is not part of the
    sources at hand.  By sections 4.2 (step 2) and 4.3 the kinds that are not
    inline-eligible are exactly Object and Struct. *)
Definition isInlineType (input : FormatType) : bool :=
  match type input with
  | TObject _ | TStruct _ => false
  | _ => true
  end.

(** ** codegen.ts *)

Definition attachComment (result : string)
    (description deprecated : option string) : string :=
  if negb (truthy_opt deprecated) && negb (truthy_opt description) then result
  else
    let list :=
      List.filter truthy
        [ match description with
          | Some d => if truthy d then "* @remarks " +:+ d else ""
          | None => ""
          end;
          match deprecated with
          | Some d => if truthy d then "* @depcreated " +:+ d else ""
          | None => ""
          end ] in
    let comment := "/**" +:+ nl +:+ join nl list +:+ nl +:+ "*/" +:+ nl in
    comment +:+ result.

Definition getTypeNameById (typeId : string) : string := "Type" +:+ typeId.

Definition literal_text (value : LiteralValue) : string :=
  match value with
  | LString s => dquote +:+ s +:+ dquote
  | LNumber text => text
  | LBoolean true => "true"
  | LBoolean false => "false"
  end.

Fixpoint getFieldType (fuel : nat) (typeId : TypeId) (types : FormatTypes)
    : result string :=
  match fuel with
  | O => OutOfFuel
  | S fuel =>
    match types_get types typeId with
    | None => Throw TypeError
    | Some fieldType =>
      let typeName := getTypeName fieldType in
      if truthy_opt typeName then Ok (default "" typeName)
      else if negb (isInlineType fieldType) then
        Ok (getTypeNameById typeId)
      else
        match type fieldType with
        | TAny => Ok "any"
        | TJSON => Ok "JsonType"
        | TString => Ok "string"
        | TBoolean => Ok "boolean"
        | TFloat => Ok "number"
        | TID => Ok "string"
        | TInt => Ok "number"
        | TNumber => Ok "number"
        | TRecord _ =>
            s ← getFieldType fuel typeId types;
            Ok ("Record<string, " +:+ s +:+ ">")
        | TUnknown => Ok "unknown"
        | TLiteral value => Ok (literal_text value)
        | TNullable itemTypeId =>
            s ← getFieldType fuel itemTypeId types;
            Ok (s +:+ " | null | undefined")
        | TList itemTypeId =>
            s ← getFieldType fuel itemTypeId types;
            Ok (s +:+ "[]")
        | TUnion itemTypeIds =>
            l ← mapM (fun typeId => getFieldType fuel typeId types) itemTypeIds;
            Ok (join " | " l)
        | TIntersect itemTypeIds =>
            l ← mapM (fun typeId => getFieldType fuel typeId types) itemTypeIds;
            Ok (join " & " l)
        | TObject _ | TStruct _ | TOther _ => Throw (UnsupportedField fieldType)
        end
    end
  end.

(** The body of [getFieldType], with the recursive call as a parameter [self]:
    [getFieldType (S fuel)] is this body over [getFieldType fuel]. *)
Definition getFieldType_body (self : TypeId -> result string) (typeId : TypeId)
    (types : FormatTypes) : result string :=
  match types_get types typeId with
  | None => Throw TypeError
  | Some fieldType =>
    let typeName := getTypeName fieldType in
    if truthy_opt typeName then Ok (default "" typeName)
    else if negb (isInlineType fieldType) then
      Ok (getTypeNameById typeId)
    else
      match type fieldType with
      | TAny => Ok "any"
      | TJSON => Ok "JsonType"
      | TString => Ok "string"
      | TBoolean => Ok "boolean"
      | TFloat => Ok "number"
      | TID => Ok "string"
      | TInt => Ok "number"
      | TNumber => Ok "number"
      | TRecord _ =>
          s ← self typeId;
          Ok ("Record<string, " +:+ s +:+ ">")
      | TUnknown => Ok "unknown"
      | TLiteral value => Ok (literal_text value)
      | TNullable itemTypeId =>
          s ← self itemTypeId;
          Ok (s +:+ " | null | undefined")
      | TList itemTypeId =>
          s ← self itemTypeId;
          Ok (s +:+ "[]")
      | TUnion itemTypeIds =>
          l ← mapM self itemTypeIds;
          Ok (join " | " l)
      | TIntersect itemTypeIds =>
          l ← mapM self itemTypeIds;
          Ok (join " & " l)
      | TObject _ | TStruct _ | TOther _ => Throw (UnsupportedField fieldType)
      end
  end.

(** The three template literals of [handleType] and [handleEntries], with the
    line breaks and the indentation they have in the source. *)
Definition exported_declaration (typeName : string) (fileds : list string)
    : string :=
  nl +:+ "        export type " +:+ typeName +:+ " = {" +:+ nl +:+
  "          " +:+ join (",  " +:+ nl) fileds +:+ nl +:+
  "        }" +:+ nl +:+
  "        ".

Definition local_declaration (typeName : string) (fileds : list string)
    : string :=
  "type " +:+ typeName +:+ " = {" +:+ nl +:+
  "        " +:+ join (",  " +:+ nl) fileds +:+ nl +:+
  "      }" +:+ nl +:+
  "      ".

Definition entries_block (fields : list string) : string :=
  nl +:+ "    {" +:+ nl +:+
  "      " +:+ join ("," +:+ nl) fields +:+ nl +:+
  "    }" +:+ nl +:+
  "    ".

(** The callback that [handleType] maps over [Object.entries(fields)]. *)
Definition handleField (fuel : nat) (types : FormatTypes)
    (entry : string * FormatField) : result string :=
  let '(key, field) := entry in
  t ← getFieldType fuel (typeId field) types;
  Ok (attachComment (key +:+ ": " +:+ t) (description field) (deprecated field)).

(** [handleType] reads and updates the set [exportSet] of its enclosing
    [codegen] call: the set is passed in and returned with the text. *)
Definition handleType (fuel : nat) (types : FormatTypes)
    (exportSet : gset string) (typeId : string) (formatType : FormatType)
    : result (string * gset string) :=
  if isInlineType formatType then Ok ("", exportSet)
  else
    match type formatType with
    | TObject fields | TStruct fields =>
        fileds ← mapM (handleField fuel types) fields;
        let typeName := getTypeName formatType in
        if truthy_opt typeName then
          let typeName := default "" typeName in
          if decide (typeName ∈ exportSet) then Throw (DuplicateName typeName)
          else
            Ok (exported_declaration typeName fileds, {[typeName]} ∪ exportSet)
        else Ok (local_declaration (getTypeNameById typeId) fileds, exportSet)
    | _ => Throw (UnsupportedType formatType)
    end.

Fixpoint handleTypes (fuel : nat) (types : FormatTypes)
    (exportSet : gset string) (formatTypes : FormatTypes)
    : result (list string * gset string) :=
  match formatTypes with
  | [] => Ok ([], exportSet)
  | (typeId, formatType) :: rest =>
      '(definition, exportSet) ←
        handleType fuel types exportSet typeId formatType;
      '(definitions, exportSet) ← handleTypes fuel types exportSet rest;
      Ok (definition :: definitions, exportSet)
  end.

Definition handleApi (fuel : nat) (types : FormatTypes) (api : FormatApi)
    : result string :=
  inputType ← getFieldType fuel (input api) types;
  outputType ← getFieldType fuel (output api) types;
  Ok ("(input: " +:+ inputType +:+ ") => Promise<" +:+ outputType +:+ ">").

(** [handleEntry] is the callback that [handleEntries] maps over
    [Object.entries(entries.entries)]; for a namespace member it calls
    [handleEntries] on the member, written out here as the same [mapM]. *)
Fixpoint handleEntry (fuel : nat) (types : FormatTypes) (key : string)
    (field : FormatEntry) {struct field} : result string :=
  match field with
  | Api api =>
      r ← handleApi fuel types api;
      Ok (attachComment (key +:+ ": " +:+ r)
            (api_description api) (api_deprecated api))
  | Entries entries =>
      fields ←
        mapM (fun '(key, field) => handleEntry fuel types key field) entries;
      Ok (key +:+ ": " +:+ entries_block fields)
  end.

Definition handleEntries (fuel : nat) (types : FormatTypes)
    (entries : FormatEntries) : result string :=
  fields ← mapM (fun '(key, field) => handleEntry fuel types key field) entries;
  Ok (entries_block fields).

Definition sourceOfJsonType : string :=
  nl +:+ "  type JsonType =" +:+ nl +:+
  "    | number" +:+ nl +:+
  "    | string" +:+ nl +:+
  "    | boolean" +:+ nl +:+
  "    | null" +:+ nl +:+
  "    | undefined" +:+ nl +:+
  "    | JsonType[]" +:+ nl +:+
  "    | {" +:+ nl +:+
  "        toJSON(): string" +:+ nl +:+
  "      }" +:+ nl +:+
  "    | {" +:+ nl +:+
  "        [key: string]: JsonType" +:+ nl +:+
  "      }" +:+ nl +:+
  "  ".

Definition is_JSON (item : FormatType) : bool :=
  match type item with
  | TJSON => true
  | _ => false
  end.

(** The template literal that [codegen] assembles. *)
Definition source_text (jsonType : string) (definitions : list string)
    (entries : string) : string :=
  nl +:+ "    " +:+ jsonType +:+ nl +:+
  nl +:+ "    " +:+ join (nl +:+ nl) definitions +:+ nl +:+
  nl +:+ "    export type __API__ = " +:+ entries +:+ nl +:+
  "  ".

(** [codegen] up to the call of the pretty-printer: the assembled text. *)
Definition codegen_source (fuel : nat) (formatResult : FormatResult)
    : result string :=
  '(definitions, _) ←
    handleTypes fuel (types formatResult) ∅ (types formatResult);
  entries ← handleEntries fuel (types formatResult) (entries formatResult);
  let hasJsonType := existsb (fun '(_, item) => is_JSON item) (types formatResult) in
  Ok (source_text (if hasJsonType then sourceOfJsonType else "")
        definitions entries).

(** [codegen], with the pretty-printer as a parameter. *)
Definition codegen (format : string -> result string) (fuel : nat)
    (formatResult : FormatResult) : result string :=
  source ← codegen_source fuel formatResult;
  format source.

(** [resolve types typeId s]: the call [getFieldType(typeId, types)] returns
    the string [s]. *)
Definition resolve (types : FormatTypes) (typeId : TypeId) (s : string) : Prop :=
  exists fuel, getFieldType fuel typeId types = Ok s.

(** The fields that [handleType] renders for a descriptor: those of an
    Object or a Struct. *)
Definition fields_of (formatType : FormatType) : FormatFields :=
  match type formatType with
  | TObject fields | TStruct fields => fields
  | _ => []
  end.

(** The ids that [getFieldType] resolves in turn at a Nullable, List, Union
    or Intersect descriptor. *)
Definition item_ids (fieldType : FormatType) : list TypeId :=
  match type fieldType with
  | TNullable itemTypeId | TList itemTypeId => [itemTypeId]
  | TUnion itemTypeIds | TIntersect itemTypeIds => itemTypeIds
  | _ => []
  end.

(** [needs types typeId wanted]: resolving [typeId] looks the id [wanted] up:
    it is [typeId] itself, or an id needed by an item or member of the
    descriptor at [typeId], which passes the display-name test as nameless
    and is a Nullable, a List, a Union or an Intersect. *)
Inductive needs (types : FormatTypes) : TypeId -> TypeId -> Prop :=
| needs_self (typeId : TypeId) : needs types typeId typeId
| needs_item (typeId : TypeId) (fieldType : FormatType) (itemTypeId wanted : TypeId) :
    types_get types typeId = Some fieldType ->
    truthy_opt (getTypeName fieldType) = false ->
    In itemTypeId (item_ids fieldType) ->
    needs types itemTypeId wanted ->
    needs types typeId wanted.

(** The endpoints of an endpoint tree, at any depth. *)
Inductive endpoint_of : FormatEntries -> FormatApi -> Prop :=
| endpoint_here (key : string) (api : FormatApi) (entries : FormatEntries) :
    In (key, Api api) entries -> endpoint_of entries api
| endpoint_below (key : string) (children entries : FormatEntries)
    (api : FormatApi) :
    In (key, Entries children) entries ->
    endpoint_of children api ->
    endpoint_of entries api.

(** The ids that [codegen] passes to [getFieldType] itself: the type of a
    field of an Object or Struct entry of the registry, and the input and
    the output of an endpoint. *)
Definition resolved_by_codegen (formatResult : FormatResult) (id : TypeId) : Prop :=
  (exists declaredId declared key field,
     In (declaredId, declared) (types formatResult) /\
     In (key, field) (fields_of declared) /\
     typeId field = id) \/
  (exists api,
     endpoint_of (entries formatResult) api /\
     (input api = id \/ output api = id)).

(** The number of positions of [s] at which [pattern] occurs. *)
Fixpoint occurrences (pattern s : string) : nat :=
  match s with
  | EmptyString => if String.prefix pattern s then 1 else 0
  | String _ rest =>
      ((if String.prefix pattern s then 1 else 0) + occurrences pattern rest)%nat
  end.

(** The name under which [handleType] exports an entry: the display name
    of an Object or Struct, when it passes the truthiness test. *)
Definition exported_name (formatType : FormatType) : option string :=
  if isInlineType formatType then None
  else
    match name formatType with
    | Some typeName => if truthy typeName then Some typeName else None
    | None => None
    end.

Definition exported_names (formatTypes : FormatTypes) : list string :=
  omap (fun entry => exported_name entry.2) formatTypes.

(** An endpoint resolves when its input and its output type ids do. *)
Definition endpoint_resolves (fuel : nat) (types : FormatTypes)
    (api : FormatApi) : Prop :=
  (exists inputType, getFieldType fuel (input api) types = Ok inputType) /\
  (exists outputType, getFieldType fuel (output api) types = Ok outputType).

(** A call ends in the failure of a resolution when it runs out of
    recursion depth or throws what [getFieldType] throws. *)
Definition resolution_failure {A} (r : result A) : Prop :=
  r = OutOfFuel \/ r = Throw TypeError \/
  exists fieldType, r = Throw (UnsupportedField fieldType).

(** * Properties *)

(** ** The outcome monad *)

Lemma bind_Ok {A B} (m : result A) (k : A -> result B) (b : B) :
  m ≫= k = Ok b <-> exists a, m = Ok a /\ k a = Ok b.
Proof.
  destruct m as [a| |]; simpl; split.
  - intros H. now exists a.
  - now intros (a' & [= ->] & H).
  - discriminate.
  - now intros (a' & [=] & _).
  - discriminate.
  - now intros (a' & [=] & _).
Qed.

Lemma fails_bind {A B} (m : result A) (k : A -> result B) :
  fails m -> fails (m ≫= k).
Proof.
  intros Hm b Hb. apply bind_Ok in Hb as (a & Ha & _). now apply (Hm a).
Qed.

Lemma fails_Throw {A} (e : Error) : fails (@Throw A e).
Proof. intros a. discriminate. Qed.

Lemma fails_OutOfFuel {A} : fails (@OutOfFuel A).
Proof. intros a. discriminate. Qed.

Lemma mapM_Ok {A B} (f : A -> result B) (l : list A) (k : list B) :
  mapM f l = Ok k <-> Forall2 (fun x y => f x = Ok y) l k.
Proof.
  revert k. induction l as [|x l IH]; intros k; simpl.
  - split.
    + intros [= <-]. constructor.
    + intros H. inversion H. reflexivity.
  - split.
    + intros H. apply bind_Ok in H as (y & Hy & H).
      apply bind_Ok in H as (k' & Hk' & [= <-]).
      constructor; [assumption | now apply IH].
    + intros H. inversion H as [|x' y l' k' Hy Hk']; subst.
      rewrite Hy. simpl. apply IH in Hk'. rewrite Hk'. reflexivity.
Qed.

Lemma mapM_cons {A B} (f : A -> result B) (x : A) (l : list A) :
  mapM f (x :: l) = (y ← f x; k ← mapM f l; Ok (y :: k)).
Proof. reflexivity. Qed.

Lemma mapM_stable {A B} (f g : A -> result B) (l : list A)
    (r : result (list B)) :
  (forall x r', f x = r' -> r' <> OutOfFuel -> g x = r') ->
  mapM f l = r -> r <> OutOfFuel -> mapM g l = r.
Proof.
  intros Hfg. revert r. induction l as [|x l IH]; intros r; simpl.
  - trivial.
  - destruct (f x) as [y| e |] eqn:Hx; simpl.
    + rewrite (Hfg x (Ok y) Hx) by discriminate. simpl.
      destruct (mapM f l) as [k| e |] eqn:Hl; simpl; intros <- Hr.
      * rewrite (IH (Ok k)) by (reflexivity || discriminate). reflexivity.
      * rewrite (IH (Throw e)) by (reflexivity || discriminate). reflexivity.
      * now destruct Hr.
    + rewrite (Hfg x (Throw e) Hx) by discriminate. trivial.
    + intros <- Hr. now destruct Hr.
Qed.

(** ** [getFieldType]: one step, and independence from spare fuel *)

Lemma types_get_In (types : FormatTypes) (typeId : TypeId) (t : FormatType) :
  types_get types typeId = Some t -> In (typeId, t) types.
Proof.
  induction types as [|[k t'] rest IH]; simpl; [discriminate|].
  destruct (String.eqb_spec k typeId) as [->|Hne].
  - intros [= ->]. now left.
  - intros H. right. now apply IH.
Qed.

Lemma getFieldType_absent (fuel : nat) (types : FormatTypes) (typeId : TypeId) :
  types_get types typeId = None ->
  getFieldType (S fuel) typeId types = Throw TypeError.
Proof. intros H. simpl. now rewrite H. Qed.

Lemma getFieldType_named (fuel : nat) (types : FormatTypes) (typeId : TypeId)
    (fieldType : FormatType) (typeName : string) :
  types_get types typeId = Some fieldType ->
  getTypeName fieldType = Some typeName ->
  typeName <> "" ->
  getFieldType (S fuel) typeId types = Ok typeName.
Proof.
  intros Hget Hname Hne. simpl. rewrite Hget, Hname. simpl.
  destruct typeName; [now destruct Hne | reflexivity].
Qed.

Lemma getFieldType_unfold (fuel : nat) (types : FormatTypes) (typeId : TypeId) :
  getFieldType (S fuel) typeId types =
  getFieldType_body (fun id => getFieldType fuel id types) typeId types.
Proof. reflexivity. Qed.

Lemma bind_stable {A B} (m m' : result A) (k : A -> result B) (r : result B) :
  (forall r', m = r' -> r' <> OutOfFuel -> m' = r') ->
  m ≫= k = r -> r <> OutOfFuel -> m' ≫= k = r.
Proof.
  intros Hm. destruct m as [a| e |]; simpl.
  - rewrite (Hm (Ok a)) by (reflexivity || discriminate). trivial.
  - rewrite (Hm (Throw e)) by (reflexivity || discriminate). trivial.
  - intros <- Hr. now destruct Hr.
Qed.

(** A result reached with recursive calls [self] is reached with any [self']
    that agrees with [self] wherever [self] returns or throws. *)
Lemma getFieldType_body_stable (self self' : TypeId -> result string)
    (types : FormatTypes) (typeId : TypeId) (r : result string) :
  (forall id r', self id = r' -> r' <> OutOfFuel -> self' id = r') ->
  getFieldType_body self typeId types = r -> r <> OutOfFuel ->
  getFieldType_body self' typeId types = r.
Proof.
  intros Hself. unfold getFieldType_body.
  destruct (types_get types typeId) as [fieldType|]; [|trivial].
  simpl. destruct (truthy_opt (getTypeName fieldType)); [trivial|].
  destruct (negb (isInlineType fieldType)); [trivial|].
  destruct (type fieldType); trivial;
    apply bind_stable; auto; intros r'; apply mapM_stable; auto.
Qed.

Lemma getFieldType_S (fuel : nat) (types : FormatTypes) (typeId : TypeId)
    (r : result string) :
  getFieldType fuel typeId types = r -> r <> OutOfFuel ->
  getFieldType (S fuel) typeId types = r.
Proof.
  revert typeId r. induction fuel as [|fuel IH]; intros typeId r.
  - simpl. intros <- H. now destruct H.
  - rewrite !getFieldType_unfold.
    apply getFieldType_body_stable. intros id r'. apply IH.
Qed.

Lemma getFieldType_le (fuel fuel' : nat) (types : FormatTypes) (typeId : TypeId)
    (r : result string) :
  getFieldType fuel typeId types = r -> r <> OutOfFuel ->
  (fuel <= fuel')%nat ->
  getFieldType fuel' typeId types = r.
Proof.
  intros Hr Hne Hle. induction Hle as [|m Hle IH]; [assumption|].
  now apply getFieldType_S.
Qed.

Lemma resolve_fuel (types : FormatTypes) (ids : list TypeId) (ss : list string) :
  Forall2 (resolve types) ids ss ->
  exists fuel, Forall2 (fun id s => getFieldType fuel id types = Ok s) ids ss.
Proof.
  induction 1 as [|id s ids ss [f Hf] _ [f' Hf']].
  - exists O. constructor.
  - exists (Nat.max f f'). constructor.
    + apply (getFieldType_le f); [assumption|discriminate|lia].
    + eapply Forall2_impl; [exact Hf'|]. simpl. intros id' s' H.
      apply (getFieldType_le f'); [assumption|discriminate|lia].
Qed.

Lemma resolve_deterministic (types : FormatTypes) (typeId : TypeId) (s s' : string) :
  resolve types typeId s -> resolve types typeId s' -> s = s'.
Proof.
  intros [f Hf] [f' Hf'].
  apply (getFieldType_le f (Nat.max f f')) in Hf; [|discriminate|lia].
  apply (getFieldType_le f' (Nat.max f f')) in Hf'; [|discriminate|lia].
  congruence.
Qed.

(** ** Resolving unnamed inline descriptors *)

(** One step of [getFieldType] at a descriptor without a display name whose
    kind is known. *)
Ltac resolve_step Hget Hname Htype :=
  rewrite getFieldType_unfold; unfold getFieldType_body;
  rewrite Hget; unfold getTypeName, isInlineType;
  rewrite Hname, Htype; simpl.

Lemma getFieldType_Record (fuel : nat) (types : FormatTypes) (typeId : TypeId)
    (fieldType : FormatType) (itemTypeId : TypeId) :
  types_get types typeId = Some fieldType ->
  name fieldType = None ->
  type fieldType = TRecord itemTypeId ->
  getFieldType fuel typeId types = OutOfFuel.
Proof.
  intros Hget Hname Htype. induction fuel as [|fuel IH]; [reflexivity|].
  resolve_step Hget Hname Htype. now rewrite IH.
Qed.

Lemma getFieldType_List (fuel : nat) (types : FormatTypes) (typeId : TypeId)
    (fieldType : FormatType) (itemTypeId : TypeId) :
  types_get types typeId = Some fieldType ->
  name fieldType = None ->
  type fieldType = TList itemTypeId ->
  getFieldType (S fuel) typeId types =
    (s ← getFieldType fuel itemTypeId types; Ok (s +:+ "[]")).
Proof. intros Hget Hname Htype. now resolve_step Hget Hname Htype. Qed.

Lemma getFieldType_Nullable (fuel : nat) (types : FormatTypes) (typeId : TypeId)
    (fieldType : FormatType) (itemTypeId : TypeId) :
  types_get types typeId = Some fieldType ->
  name fieldType = None ->
  type fieldType = TNullable itemTypeId ->
  getFieldType (S fuel) typeId types =
    (s ← getFieldType fuel itemTypeId types; Ok (s +:+ " | null | undefined")).
Proof. intros Hget Hname Htype. now resolve_step Hget Hname Htype. Qed.

Lemma getFieldType_Union (fuel : nat) (types : FormatTypes) (typeId : TypeId)
    (fieldType : FormatType) (itemTypeIds : list TypeId) :
  types_get types typeId = Some fieldType ->
  name fieldType = None ->
  type fieldType = TUnion itemTypeIds ->
  getFieldType (S fuel) typeId types =
    (l ← mapM (fun id => getFieldType fuel id types) itemTypeIds;
     Ok (join " | " l)).
Proof. intros Hget Hname Htype. now resolve_step Hget Hname Htype. Qed.

Lemma getFieldType_String (fuel : nat) (types : FormatTypes) (typeId : TypeId)
    (fieldType : FormatType) :
  types_get types typeId = Some fieldType ->
  name fieldType = None ->
  type fieldType = TString ->
  getFieldType (S fuel) typeId types = Ok "string".
Proof. intros Hget Hname Htype. now resolve_step Hget Hname Htype. Qed.

(** C1, at a registry with an unnamed Record of strings: the call
    [getFieldType(1, types)] should return ["Record<string, string>"], the
    mapping type over the resolved item type.  The Record branch calls
    [getFieldType] on the Record's own id instead of its [itemTypeId], so
    the call recurses without end and returns nothing, whatever the
    recursion depth allowed. *)
Theorem C1_record_never_returns :
  let types := [("1", mkType (TRecord "2") None); ("2", mkType TString None)] in
  resolve types "2" "string" /\
  (forall fuel, getFieldType fuel "1" types = OutOfFuel) /\
  ~ resolve types "1" ("Record<string, " +:+ "string" +:+ ">").
Proof.
  intros types.
  assert (H : forall fuel, getFieldType fuel "1" types = OutOfFuel).
  { intros fuel.
    now apply (getFieldType_Record fuel types "1" (mkType (TRecord "2") None) "2"). }
  split; [now exists 1%nat|]. split; [exact H|].
  intros [fuel Hfuel]. now rewrite H in Hfuel.
Qed.

(** C7: an atomic primitive descriptor without a display name resolves to
    the fixed spelling of its kind, whatever else the registry holds. *)
Theorem C7_atomic_spelling (fuel : nat) (types : FormatTypes) (typeId : TypeId)
    (fieldType : FormatType) (s : string) :
  types_get types typeId = Some fieldType ->
  name fieldType = None ->
  In (type fieldType, s)
     [ (TAny, "any"); (TJSON, "JsonType"); (TString, "string");
       (TBoolean, "boolean"); (TFloat, "number"); (TInt, "number");
       (TNumber, "number"); (TID, "string"); (TUnknown, "unknown") ] ->
  getFieldType (S fuel) typeId types = Ok s.
Proof.
  intros Hget Hname Hin. simpl in Hin.
  repeat (destruct Hin as [[= Htype <-]|Hin];
          [symmetry in Htype; now resolve_step Hget Hname Htype|]).
  destruct Hin.
Qed.

Lemma C7_atomic_spelling_witness :
  getFieldType 1 "7" [("3", mkType TJSON (Some "Payload"));
                    ("7", mkType TFloat None)] = Ok "number".
Proof.
  apply (C7_atomic_spelling 0 _ "7" (mkType TFloat None) "number").
  - reflexivity.
  - reflexivity.
  - simpl. tauto.
Defined.

(** C8: an unnamed List resolves to the resolution of its item type followed
    by the array suffix, and to nothing else; a list of lists of strings
    resolves to ["string[][]"]. *)
Theorem C8_list_suffix (types : FormatTypes) (typeId : TypeId)
    (fieldType : FormatType) (itemTypeId : TypeId) :
  types_get types typeId = Some fieldType ->
  name fieldType = None ->
  type fieldType = TList itemTypeId ->
  (forall s, resolve types itemTypeId s -> resolve types typeId (s +:+ "[]")) /\
  (forall r, resolve types typeId r ->
     exists s, resolve types itemTypeId s /\ r = s +:+ "[]") /\
  (forall inner leaf leafType,
     types_get types itemTypeId = Some inner ->
     name inner = None -> type inner = TList leaf ->
     types_get types leaf = Some leafType ->
     name leafType = None -> type leafType = TString ->
     resolve types typeId "string[][]").
Proof.
  intros Hget Hname Htype.
  assert (Hup : forall id ft item s,
    types_get types id = Some ft -> name ft = None -> type ft = TList item ->
    resolve types item s -> resolve types id (s +:+ "[]")).
  { intros id ft item s Hg Hn Ht [fuel Hs]. exists (S fuel).
    rewrite (getFieldType_List fuel types id ft item Hg Hn Ht), Hs.
    reflexivity. }
  split; [|split].
  - intros s. now apply Hup with fieldType.
  - intros r [fuel Hr]. destruct fuel as [|fuel]; [discriminate|].
    rewrite (getFieldType_List fuel types typeId fieldType itemTypeId
               Hget Hname Htype) in Hr.
    apply bind_Ok in Hr as (s & Hs & [= <-]).
    exists s. split; [now exists fuel | reflexivity].
  - intros inner leaf leafType Hg1 Hn1 Ht1 Hg2 Hn2 Ht2.
    apply (Hup typeId fieldType itemTypeId "string[]" Hget Hname Htype).
    apply (Hup itemTypeId inner leaf "string" Hg1 Hn1 Ht1).
    exists 1%nat. now apply getFieldType_String with leafType.
Qed.

Lemma C8_list_suffix_witness :
  resolve [("1", mkType (TList "2") None); ("2", mkType (TList "3") None);
           ("3", mkType TString None)] "1" "string[][]".
Proof.
  refine (proj2 (proj2 (C8_list_suffix _ "1" (mkType (TList "2") None) "2" _ _ _))
            (mkType (TList "3") None) "3" (mkType TString None) _ _ _ _ _ _);
    reflexivity.
Defined.

(** C4: an unnamed Union resolves to the resolutions of its members joined
    by [" | "], member by member in the order of [itemTypeIds], and to
    nothing else. *)
Theorem C4_union_order (types : FormatTypes) (typeId : TypeId)
    (fieldType : FormatType) (itemTypeIds : list TypeId) :
  types_get types typeId = Some fieldType ->
  name fieldType = None ->
  type fieldType = TUnion itemTypeIds ->
  (forall members, Forall2 (resolve types) itemTypeIds members ->
     resolve types typeId (join " | " members)) /\
  (forall r, resolve types typeId r ->
     exists members, Forall2 (resolve types) itemTypeIds members /\
                     r = join " | " members).
Proof.
  intros Hget Hname Htype. split.
  - intros members Hall. apply resolve_fuel in Hall as [fuel Hall].
    exists (S fuel).
    rewrite (getFieldType_Union fuel types typeId fieldType itemTypeIds
               Hget Hname Htype).
    apply mapM_Ok in Hall. now rewrite Hall.
  - intros r [fuel Hr]. destruct fuel as [|fuel]; [discriminate|].
    rewrite (getFieldType_Union fuel types typeId fieldType itemTypeIds
               Hget Hname Htype) in Hr.
    apply bind_Ok in Hr as (members & Hall & [= <-]).
    exists members. split; [|reflexivity].
    apply mapM_Ok in Hall. eapply Forall2_impl; [exact Hall|].
    simpl. intros id s Hs. now exists fuel.
Qed.

Lemma C4_union_order_witness :
  resolve [("1", mkType TString None); ("2", mkType TBoolean None);
           ("3", mkType TNumber None); ("4", mkType (TUnion ["3"; "1"; "2"]) None)]
          "4" "number | string | boolean".
Proof.
  refine (proj1 (C4_union_order _ "4" (mkType (TUnion ["3"; "1"; "2"]) None) ["3"; "1"; "2"]
                   _ _ _) ["number"; "string"; "boolean"] _);
    try reflexivity.
  repeat constructor; now exists 1%nat.
Defined.

(** ** Named descriptors *)

(** C6, as stated, fails at a descriptor whose display name is the empty
    string: the name is tested for truthiness, the empty name does not pass,
    and the String descriptor is expanded to ["string"]. *)
Lemma C6_empty_name_counterexample :
  let fieldType := mkType TString (Some "") in
  let types := [("1", fieldType)] in
  types_get types "1" = Some fieldType /\
  getTypeName fieldType = Some "" /\
  getFieldType 1 "1" types = Ok "string" /\
  ~ resolve types "1" "".
Proof.
  repeat split.
  intros [fuel H]. destruct fuel as [|fuel]; discriminate.
Qed.

(** C6, amended: a descriptor that carries a non-empty display name resolves
    to that name, whatever its kind and whatever else the registry holds. *)
Theorem C6_named_reference (fuel : nat) (types : FormatTypes) (typeId : TypeId)
    (fieldType : FormatType) (typeName : string) :
  types_get types typeId = Some fieldType ->
  name fieldType = Some typeName ->
  typeName <> "" ->
  getFieldType (S fuel) typeId types = Ok typeName /\
  forall s, resolve types typeId s -> s = typeName.
Proof.
  intros Hget Hname Hne.
  assert (H : forall fuel', getFieldType (S fuel') typeId types = Ok typeName).
  { intros fuel'. now apply getFieldType_named with fieldType. }
  split; [apply H|].
  intros s [fuel' Hs]. destruct fuel' as [|fuel']; [discriminate|].
  rewrite H in Hs. congruence.
Qed.

Lemma C6_named_reference_witness :
  getFieldType 1 "4" [("2", mkType TString None);
                    ("4", mkType (TList "2") (Some "Names"))] = Ok "Names".
Proof.
  refine (proj1 (C6_named_reference 0 _ "4" (mkType (TList "2") (Some "Names"))
                   "Names" _ _ _)).
  - reflexivity.
  - reflexivity.
  - discriminate.
Defined.

(** ** The endpoint tree *)

Lemma handleApi_Ok (fuel : nat) (types : FormatTypes) (api : FormatApi)
    (inputType outputType : string) :
  getFieldType fuel (input api) types = Ok inputType ->
  getFieldType fuel (output api) types = Ok outputType ->
  handleApi fuel types api =
    Ok ("(input: " +:+ inputType +:+ ") => Promise<" +:+ outputType +:+ ">").
Proof. intros Hi Ho. unfold handleApi. now rewrite Hi, Ho. Qed.

Lemma handleEntries_insert (fuel : nat) (types : FormatTypes)
    (before after : FormatEntries) (key : string) (field : FormatEntry)
    (rendered_before rendered_after : list string) (member : string) :
  mapM (fun '(key, field) => handleEntry fuel types key field) before =
    Ok rendered_before ->
  handleEntry fuel types key field = Ok member ->
  mapM (fun '(key, field) => handleEntry fuel types key field) after =
    Ok rendered_after ->
  handleEntries fuel types (before ++ (key, field) :: after)%list =
    Ok (entries_block (rendered_before ++ member :: rendered_after)%list).
Proof.
  intros Hbefore Hmember Hafter. unfold handleEntries.
  apply mapM_Ok in Hbefore. apply mapM_Ok in Hafter.
  assert (Hall : mapM (fun '(key, field) => handleEntry fuel types key field)
                   (before ++ (key, field) :: after)%list =
                 Ok (rendered_before ++ member :: rendered_after)%list).
  { apply mapM_Ok. apply Forall2_app; [assumption|].
    constructor; assumption. }
  now rewrite Hall.
Qed.

(** The text that [attachComment] returns, case by case. *)
Lemma attachComment_text (result : string)
    (description deprecated : option string) :
  attachComment result description deprecated =
    match
      ((match description with
        | Some (String c d) => ["* @remarks " +:+ String c d]
        | _ => []
        end) ++
       (match deprecated with
        | Some (String c d) => ["* @depcreated " +:+ String c d]
        | _ => []
        end))%list
    with
    | [] => result
    | lines =>
        ("/**" +:+ nl +:+ join nl lines +:+ nl +:+ "*/" +:+ nl) +:+ result
    end.
Proof.
  unfold attachComment.
  destruct description as [[|a d]|], deprecated as [[|b p]|]; reflexivity.
Qed.

(** C9: an endpoint whose input and output type ids resolve to [inputType]
    and [outputType] is rendered as the signature
    [(input: inputType) => Promise<outputType>]; as the member [key] of a
    namespace, among any members before and after it, it is [key: ] and
    that signature, preceded by the documentation comment of the endpoint:
    a block with a [@remarks] line for its description and then a
    [@depcreated] line for its deprecation note, each only when present and
    non-empty, and no block at all when neither is. *)
Theorem C9_endpoint_signature (types : FormatTypes) (key : string)
    (api : FormatApi) (inputType outputType : string) :
  resolve types (input api) inputType ->
  resolve types (output api) outputType ->
  let signature :=
    "(input: " +:+ inputType +:+ ") => Promise<" +:+ outputType +:+ ">" in
  let lines :=
    ((match api_description api with
      | Some (String c d) => ["* @remarks " +:+ String c d]
      | _ => []
      end) ++
     (match api_deprecated api with
      | Some (String c d) => ["* @depcreated " +:+ String c d]
      | _ => []
      end))%list in
  let member :=
    match lines with
    | [] => key +:+ ": " +:+ signature
    | _ =>
        ("/**" +:+ nl +:+ join nl lines +:+ nl +:+ "*/" +:+ nl) +:+
        (key +:+ ": " +:+ signature)
    end in
  exists fuel, forall fuel', (fuel <= fuel')%nat ->
    handleApi fuel' types api = Ok signature /\
    handleEntry fuel' types key (Api api) = Ok member /\
    forall before after rendered_before rendered_after,
      mapM (fun '(key, field) => handleEntry fuel' types key field) before =
        Ok rendered_before ->
      mapM (fun '(key, field) => handleEntry fuel' types key field) after =
        Ok rendered_after ->
      handleEntries fuel' types (before ++ (key, Api api) :: after)%list =
        Ok (nl +:+ "    {" +:+ nl +:+
            "      " +:+
            join ("," +:+ nl) (rendered_before ++ member :: rendered_after)%list
            +:+ nl +:+
            "    }" +:+ nl +:+
            "    ").
Proof.
  intros [fi Hi] [fo Ho] signature lines member. exists (Nat.max fi fo).
  intros fuel' Hle.
  assert (Hapi : handleApi fuel' types api = Ok signature).
  { apply handleApi_Ok.
    - apply (getFieldType_le fi); [assumption|discriminate|lia].
    - apply (getFieldType_le fo); [assumption|discriminate|lia]. }
  assert (Hentry : handleEntry fuel' types key (Api api) = Ok member).
  { cbn [handleEntry]. rewrite Hapi. cbn [mbind result_bind].
    rewrite attachComment_text. unfold member, lines.
    now destruct (api_description api) as [[|a d]|],
                 (api_deprecated api) as [[|b p]|]. }
  repeat split; try assumption.
  intros before after rendered_before rendered_after Hbefore Hafter.
  now apply handleEntries_insert.
Qed.

Lemma C9_endpoint_signature_witness :
  let types := [("1", mkType TString None); ("2", mkType (TList "1") None)] in
  let api := mkApi "1" "2" (Some "Lists the names") (Some "use search") in
  exists fuel, forall fuel', (fuel <= fuel')%nat ->
    handleApi fuel' types api = Ok "(input: string) => Promise<string[]>" /\
    handleEntry fuel' types "names" (Api api) =
      Ok "/**
* @remarks Lists the names
* @depcreated use search
*/
names: (input: string) => Promise<string[]>" /\
    handleEntries fuel' types
      [("ping", Api (mkApi "1" "1" None None)); ("names", Api api)] =
      Ok "
    {
      ping: (input: string) => Promise<string>,
/**
* @remarks Lists the names
* @depcreated use search
*/
names: (input: string) => Promise<string[]>
    }
    ".
Proof.
  intros types api.
  destruct (C9_endpoint_signature types "names" api "string" "string[]")
    as [fuel H].
  - now exists 1%nat.
  - now exists 2%nat.
  - exists (S fuel). intros fuel' Hle.
    destruct (H fuel' ltac:(lia)) as (Hapi & Hentry & Hentries).
    split; [exact Hapi|]. split; [exact Hentry|].
    destruct fuel' as [|fuel'']; [lia|].
    now apply (Hentries [("ping", Api (mkApi "1" "1" None None))] []
                 ["ping: (input: string) => Promise<string>"] []).
Defined.

(** ** The declaration emitter *)

Lemma handleType_inline (fuel : nat) (types : FormatTypes)
    (exportSet : gset string) (typeId : string) (formatType : FormatType) :
  isInlineType formatType = true ->
  handleType fuel types exportSet typeId formatType = Ok ("", exportSet).
Proof. intros H. unfold handleType. now rewrite H. Qed.

Lemma handleType_declared (fuel : nat) (types : FormatTypes)
    (exportSet : gset string) (typeId : string) (formatType : FormatType) :
  isInlineType formatType = false ->
  handleType fuel types exportSet typeId formatType =
    (fileds ← mapM (handleField fuel types) (fields_of formatType);
     if truthy_opt (name formatType) then
       let typeName := default "" (name formatType) in
       if decide (typeName ∈ exportSet) then Throw (DuplicateName typeName)
       else Ok (exported_declaration typeName fileds, {[typeName]} ∪ exportSet)
     else Ok (local_declaration (getTypeNameById typeId) fileds, exportSet)).
Proof.
  intros H. unfold handleType, fields_of. rewrite H.
  unfold isInlineType in H. now destruct (type formatType).
Qed.

Lemma handleType_unnamed (fuel : nat) (types : FormatTypes)
    (exportSet : gset string) (typeId : string) (formatType : FormatType)
    (fileds : list string) :
  isInlineType formatType = false ->
  name formatType = None ->
  mapM (handleField fuel types) (fields_of formatType) = Ok fileds ->
  handleType fuel types exportSet typeId formatType =
    Ok (local_declaration (getTypeNameById typeId) fileds, exportSet).
Proof.
  intros Hinline Hname Hfields.
  rewrite handleType_declared by assumption. now rewrite Hfields, Hname.
Qed.

Lemma handleType_named (fuel : nat) (types : FormatTypes)
    (exportSet : gset string) (typeId : string) (formatType : FormatType)
    (typeName : string) (fileds : list string) :
  isInlineType formatType = false ->
  name formatType = Some typeName ->
  typeName <> "" ->
  mapM (handleField fuel types) (fields_of formatType) = Ok fileds ->
  handleType fuel types exportSet typeId formatType =
    if decide (typeName ∈ exportSet) then Throw (DuplicateName typeName)
    else Ok (exported_declaration typeName fileds, {[typeName]} ∪ exportSet).
Proof.
  intros Hinline Hname Hne Hfields.
  rewrite handleType_declared by assumption. rewrite Hfields, Hname. simpl.
  destruct typeName; [now destruct Hne | reflexivity].
Qed.

Lemma handleTypes_cons (fuel : nat) (types : FormatTypes)
    (exportSet : gset string) (typeId : TypeId) (formatType : FormatType)
    (rest : FormatTypes) :
  handleTypes fuel types exportSet ((typeId, formatType) :: rest) =
    ('(definition, exportSet) ←
       handleType fuel types exportSet typeId formatType;
     '(definitions, exportSet) ← handleTypes fuel types exportSet rest;
     Ok (definition :: definitions, exportSet)).
Proof. reflexivity. Qed.

Lemma getTypeNameById_nonempty (typeId : string) : getTypeNameById typeId <> "".
Proof. discriminate. Qed.

(** ** The assembler *)

Lemma existsb_is_JSON (types : FormatTypes) :
  existsb (fun '(_, item) => is_JSON item) types = true <->
  Exists (fun entry => type entry.2 = TJSON) types.
Proof.
  induction types as [|[typeId item] rest IH]; simpl.
  - split; [discriminate | intros H; inversion H].
  - rewrite Exists_cons, orb_true_iff, IH. simpl.
    unfold is_JSON. destruct (type item); intuition discriminate.
Qed.

Lemma codegen_source_Ok (fuel : nat) (formatResult : FormatResult)
    (source : string) :
  codegen_source fuel formatResult = Ok source <->
  exists definitions exportSet api,
    handleTypes fuel (types formatResult) ∅ (types formatResult) =
      Ok (definitions, exportSet) /\
    handleEntries fuel (types formatResult) (entries formatResult) = Ok api /\
    source =
      source_text
        (if existsb (fun '(_, item) => is_JSON item) (types formatResult)
         then sourceOfJsonType else "")
        definitions api.
Proof.
  unfold codegen_source. split.
  - intros H. apply bind_Ok in H as ([definitions exportSet] & Hdefs & H).
    apply bind_Ok in H as (api & Hapi & [= <-]).
    now exists definitions, exportSet, api.
  - intros (definitions & exportSet & api & Hdefs & Hapi & ->).
    rewrite Hdefs. simpl. rewrite Hapi. reflexivity.
Qed.



(** The alias text occurs once in the assembled text of a registry with two
    JSON entries, and not at all in that of a registry without one. *)
Example json_alias_occurrences :
  (s ← codegen_source 2
         (mkResult [ ("1", mkType TJSON None); ("2", mkType TJSON (Some "Blob"));
                     ("3", mkType (TList "1") None) ]
                   [("put", Api (mkApi "3" "2" None None))]);
   Ok (occurrences sourceOfJsonType s)) = Ok 1%nat /\
  (s ← codegen_source 2
         (mkResult [ ("1", mkType TString None); ("3", mkType (TList "1") None) ]
                   [("put", Api (mkApi "3" "1" None None))]);
   Ok (occurrences sourceOfJsonType s)) = Ok 0%nat.
Proof. split; vm_compute; reflexivity. Qed.

(** ** Duplicate display names *)

Lemma handleType_exportSet (fuel : nat) (types : FormatTypes)
    (exportSet exportSet' : gset string) (typeId : string)
    (formatType : FormatType) (text : string) :
  handleType fuel types exportSet typeId formatType = Ok (text, exportSet') ->
  exportSet ⊆ exportSet' /\
  (isInlineType formatType = false ->
   forall typeName, name formatType = Some typeName -> typeName <> "" ->
   (typeName ∉ exportSet) /\ (typeName ∈ exportSet')).
Proof.
  destruct (isInlineType formatType) eqn:Hinline.
  - rewrite handleType_inline by assumption. intros [= <- <-].
    split; [reflexivity | discriminate].
  - rewrite handleType_declared by assumption. intros H.
    apply bind_Ok in H as (fileds & _ & H).
    destruct (name formatType) as [typeName|] eqn:Hname; simpl in H.
    + destruct typeName as [|c typeName]; simpl in H.
      * injection H as <- <-. split; [reflexivity|].
        intros _ typeName' [= <-] Hne. now destruct Hne.
      * destruct (decide (String c typeName ∈ exportSet)) as [Hin|Hnin];
          [discriminate|].
        injection H as <- <-. split; [set_solver|].
        intros _ typeName' [= <-] _. split; [assumption | set_solver].
    + injection H as <- <-. split; [reflexivity | discriminate].
Qed.

Lemma handleTypes_seen_fails (fuel : nat) (types : FormatTypes)
    (typeName : string) (typeId : TypeId) (formatType : FormatType)
    (formatTypes : FormatTypes) (exportSet : gset string) :
  isInlineType formatType = false ->
  name formatType = Some typeName -> typeName <> "" ->
  typeName ∈ exportSet ->
  In (typeId, formatType) formatTypes ->
  fails (handleTypes fuel types exportSet formatTypes).
Proof.
  intros Hinline Hname Hne. revert exportSet.
  induction formatTypes as [|[typeId' formatType'] rest IH];
    intros exportSet Hseen Hin; [destruct Hin|].
  rewrite handleTypes_cons. intros [definitions exportSet'] H.
  apply bind_Ok in H as ([definition exportSet1] & Hhead & H).
  apply bind_Ok in H as ([definitions' exportSet2] & Hrest & _).
  apply handleType_exportSet in Hhead as [Hsub Hreg].
  destruct Hin as [[= -> ->]|Hin].
  - destruct (Hreg Hinline typeName Hname Hne) as [Hnew _]. now apply Hnew.
  - refine (IH exportSet1 _ Hin _ Hrest). clear - Hsub Hseen. set_solver.
Qed.

Lemma handleTypes_app_fails (fuel : nat) (types : FormatTypes)
    (before after : FormatTypes) :
  (forall exportSet, fails (handleTypes fuel types exportSet after)) ->
  forall exportSet,
    fails (handleTypes fuel types exportSet (before ++ after)%list).
Proof.
  intros Hafter. induction before as [|[typeId formatType] before IH];
    intros exportSet; [apply Hafter|].
  simpl app. rewrite handleTypes_cons. intros [definitions exportSet'] H.
  apply bind_Ok in H as ([definition exportSet1] & _ & H).
  apply bind_Ok in H as ([definitions' exportSet2] & Hrest & _).
  now apply IH in Hrest.
Qed.

Lemma handleTypes_twice_fails (fuel : nat) (types : FormatTypes)
    (typeName : string) (typeId typeId' : TypeId) (formatType formatType' : FormatType)
    (before after : FormatTypes) (exportSet : gset string) :
  isInlineType formatType = false ->
  name formatType = Some typeName ->
  isInlineType formatType' = false ->
  name formatType' = Some typeName ->
  typeName <> "" ->
  In (typeId', formatType') after ->
  fails (handleTypes fuel types exportSet
           (before ++ (typeId, formatType) :: after)%list).
Proof.
  intros Hinline Hname Hinline' Hname' Hne Hin. revert exportSet.
  apply handleTypes_app_fails. intros exportSet.
  rewrite handleTypes_cons. intros [definitions exportSet'] H.
  apply bind_Ok in H as ([definition exportSet1] & Hhead & H).
  apply bind_Ok in H as ([definitions' exportSet2] & Hrest & _).
  apply handleType_exportSet in Hhead as [_ Hreg].
  destruct (Hreg Hinline typeName Hname Hne) as [_ Hseen].
  now apply (handleTypes_seen_fails fuel types typeName typeId' formatType'
               after exportSet1) in Hrest.
Qed.

Lemma handleTypes_duplicate_fails (fuel : nat) (types : FormatTypes)
    (typeName : string) (typeId typeId' : TypeId) (formatType formatType' : FormatType)
    (formatTypes : FormatTypes) (exportSet : gset string) :
  In (typeId, formatType) formatTypes ->
  In (typeId', formatType') formatTypes ->
  typeId <> typeId' ->
  isInlineType formatType = false ->
  name formatType = Some typeName ->
  isInlineType formatType' = false ->
  name formatType' = Some typeName ->
  typeName <> "" ->
  fails (handleTypes fuel types exportSet formatTypes).
Proof.
  intros Hin Hin' Hids Hinline Hname Hinline' Hname' Hne.
  apply in_split in Hin as (before & after & ->).
  apply in_app_or in Hin' as [Hin'|[[= ? ?]|Hin']]; [|congruence|].
  - apply in_split in Hin' as (before' & after' & ->).
    rewrite <- app_assoc. simpl app.
    apply (handleTypes_twice_fails fuel types typeName typeId' typeId
             formatType' formatType); try assumption.
    apply in_or_app. right. now left.
  - now apply (handleTypes_twice_fails fuel types typeName typeId typeId'
                 formatType formatType').
Qed.

Lemma mapM_total {A B} (f : A -> result B) (l : list A) :
  (forall x, In x l -> exists y, f x = Ok y) -> exists k, mapM f l = Ok k.
Proof.
  induction l as [|x l IH]; intros Hall.
  - now exists [].
  - destruct (Hall x) as [y Hy]; [now left|].
    destruct IH as [k Hk]; [intros x' Hx'; apply Hall; now right|].
    exists (y :: k). rewrite mapM_cons, Hy. simpl. now rewrite Hk.
Qed.

Lemma handleField_total (fuel : nat) (types : FormatTypes)
    (fields : FormatFields) :
  (forall key field, In (key, field) fields ->
     exists s, getFieldType fuel (typeId field) types = Ok s) ->
  exists fileds, mapM (handleField fuel types) fields = Ok fileds.
Proof.
  intros Hall. apply mapM_total. intros [key field] Hin.
  destruct (Hall key field Hin) as [s Hs].
  unfold handleField. rewrite Hs. simpl. eauto.
Qed.

(** With all field types resolving, a declaration can only fail with the
    duplicate-name error. *)
Lemma handleTypes_outcome (fuel : nat) (types : FormatTypes)
    (formatTypes : FormatTypes) (exportSet : gset string) :
  (forall id formatType key field,
     In (id, formatType) formatTypes ->
     In (key, field) (fields_of formatType) ->
     exists s, getFieldType fuel (typeId field) types = Ok s) ->
  (exists definitions exportSet',
     handleTypes fuel types exportSet formatTypes =
       Ok (definitions, exportSet')) \/
  (exists typeName,
     handleTypes fuel types exportSet formatTypes =
       Throw (DuplicateName typeName)).
Proof.
  revert exportSet.
  induction formatTypes as [|[id formatType] rest IH];
    intros exportSet Hall.
  - left. now exists [], exportSet.
  - rewrite handleTypes_cons.
    assert (Hhead :
      (exists definition exportSet',
         handleType fuel types exportSet id formatType =
           Ok (definition, exportSet')) \/
      (exists typeName,
         handleType fuel types exportSet id formatType =
           Throw (DuplicateName typeName))).
    { destruct (isInlineType formatType) eqn:Hinline.
      - left. rewrite handleType_inline by assumption. eauto.
      - rewrite handleType_declared by assumption.
        destruct (handleField_total fuel types (fields_of formatType))
          as [fileds ->].
        { intros key field Hin.
          apply (Hall id formatType key field); [now left|assumption]. }
        simpl. destruct (truthy_opt (name formatType)); [|eauto].
        destruct (decide (default "" (name formatType) ∈ exportSet)); eauto. }
    destruct Hhead as [(definition & exportSet1 & ->)|[typeName ->]];
      [|right; now exists typeName].
    simpl.
    destruct (IH exportSet1) as [(definitions & exportSet2 & ->)|[typeName ->]].
    + intros id' formatType' key field Hin.
      apply (Hall id' formatType' key field). now right.
    + left. simpl. eauto.
    + right. now exists typeName.
Qed.

Lemma fails_codegen (format : string -> result string) (fuel : nat)
    (formatResult : FormatResult) :
  fails (handleTypes fuel (types formatResult) ∅ (types formatResult)) ->
  fails (codegen format fuel formatResult).
Proof.
  intros H. unfold codegen, codegen_source. now do 2 apply fails_bind.
Qed.

(** C2, as stated, fails in two ways.  Two Objects that both carry the empty
    display name are declared under their synthetic names and generation
    returns its text; and when a field of a colliding Object refers to an
    id that the registry lacks, generation fails on that lookup, not with
    the duplicate-name error. *)
Lemma C2_duplicate_name_counterexample :
  (let types := [ ("1", mkType (TObject []) (Some ""));
                  ("2", mkType (TObject []) (Some "")) ] in
   codegen Ok 0 (mkResult types []) =
     Ok (source_text ""
           [local_declaration "Type1" []; local_declaration "Type2" []]
           (entries_block []))) /\
  (let types :=
     [ ("1", mkType (TObject [("a", mkField "99" None None)]) (Some "Foo"));
       ("2", mkType (TObject []) (Some "Foo")) ] in
   forall fuel,
     codegen Ok (S fuel) (mkResult types []) = Throw TypeError /\
     forall typeName,
       codegen Ok fuel (mkResult types []) <> Throw (DuplicateName typeName)).
Proof.
  split; [reflexivity|].
  intros types fuel. split; [reflexivity|].
  intros typeName. destruct fuel; discriminate.
Qed.

(** ** References to ids that the registry lacks *)

Lemma mapM_Ok_In {A B} (f : A -> result B) (l : list A) (k : list B) (x : A) :
  mapM f l = Ok k -> In x l -> exists y, f x = Ok y.
Proof.
  intros H. apply mapM_Ok in H.
  induction H as [|x' y l k Hy _ IH]; intros Hin; [destruct Hin|].
  destruct Hin as [->|Hin]; eauto.
Qed.

Lemma mapM_fails {A B} (f : A -> result B) (l : list A) (x : A) :
  In x l -> fails (f x) -> fails (mapM f l).
Proof.
  intros Hin Hx k Hk. destruct (mapM_Ok_In f l k x Hk Hin) as [y Hy].
  now apply (Hx y).
Qed.

(** Resolution fails as soon as it needs an id that the registry lacks. *)
Lemma getFieldType_needs_fails (types : FormatTypes) (typeId wanted : TypeId) :
  needs types typeId wanted ->
  types_get types wanted = None ->
  forall fuel, fails (getFieldType fuel typeId types).
Proof.
  intros Hneeds Habsent.
  induction Hneeds as [typeId|typeId fieldType itemTypeId wanted
                                Hget Hname Hin _ IH];
    intros [|fuel]; try apply fails_OutOfFuel.
  - rewrite getFieldType_absent by assumption. apply fails_Throw.
  - specialize (IH Habsent fuel).
    rewrite getFieldType_unfold. unfold getFieldType_body.
    rewrite Hget. cbv zeta. rewrite Hname.
    unfold item_ids in Hin. unfold isInlineType.
    destruct (type fieldType); simpl in Hin |- *;
      try (now destruct Hin); try apply fails_Throw.
    + destruct Hin as [->|[]]. now apply fails_bind.
    + destruct Hin as [->|[]]. now apply fails_bind.
    + apply fails_bind.
      now apply (mapM_fails (fun id => getFieldType fuel id types)
                   itemTypeIds itemTypeId).
    + apply fails_bind.
      now apply (mapM_fails (fun id => getFieldType fuel id types)
                   itemTypeIds itemTypeId).
Qed.

Lemma handleTypes_Ok_fields (fuel : nat) (types formatTypes : FormatTypes)
    (exportSet exportSet' : gset string) (definitions : list string)
    (declaredId : TypeId) (declared : FormatType) (key : string)
    (field : FormatField) :
  handleTypes fuel types exportSet formatTypes = Ok (definitions, exportSet') ->
  In (declaredId, declared) formatTypes ->
  In (key, field) (fields_of declared) ->
  exists s, getFieldType fuel (typeId field) types = Ok s.
Proof.
  revert exportSet exportSet' definitions.
  induction formatTypes as [|[id formatType] rest IH];
    intros exportSet exportSet' definitions H Hin Hfield; [destruct Hin|].
  rewrite handleTypes_cons in H.
  apply bind_Ok in H as ([definition exportSet1] & Hhead & H).
  apply bind_Ok in H as ([definitions' exportSet2] & Hrest & _).
  destruct Hin as [[= -> ->]|Hin];
    [|now apply (IH exportSet1 exportSet2 definitions')].
  destruct (isInlineType declared) eqn:Hinline.
  - unfold isInlineType in Hinline. unfold fields_of in Hfield.
    destruct (type declared); (discriminate || destruct Hfield).
  - rewrite handleType_declared in Hhead by assumption.
    apply bind_Ok in Hhead as (fileds & Hfileds & _).
    destruct (mapM_Ok_In _ _ _ (key, field) Hfileds Hfield) as [y Hy].
    unfold handleField in Hy. apply bind_Ok in Hy as (s & Hs & _). eauto.
Qed.

Lemma handleEntry_Entries (fuel : nat) (types : FormatTypes) (key : string)
    (children : FormatEntries) :
  handleEntry fuel types key (Entries children) =
    (s ← handleEntries fuel types children; Ok (key +:+ ": " +:+ s)).
Proof.
  unfold handleEntries. simpl.
  now destruct (mapM _ children).
Qed.

Lemma handleEntries_Ok_endpoint (fuel : nat) (types : FormatTypes)
    (entries : FormatEntries) (api : FormatApi) :
  endpoint_of entries api ->
  forall text, handleEntries fuel types entries = Ok text ->
  exists inputType outputType,
    getFieldType fuel (input api) types = Ok inputType /\
    getFieldType fuel (output api) types = Ok outputType.
Proof.
  induction 1 as [key api entries Hin|key children entries api Hin _ IH];
    intros text H; unfold handleEntries in H;
    apply bind_Ok in H as (fields & Hfields & _);
    destruct (mapM_Ok_In _ _ _ _ Hfields Hin) as [y Hy]; cbv beta iota in Hy.
  - simpl in Hy. apply bind_Ok in Hy as (r & Hr & _).
    unfold handleApi in Hr. apply bind_Ok in Hr as (inputType & Hi & Hr).
    apply bind_Ok in Hr as (outputType & Ho & _). eauto.
  - rewrite handleEntry_Entries in Hy. apply bind_Ok in Hy as (s & Hs & _).
    now apply (IH s).
Qed.

(** C3, as stated, fails at a registry whose List refers to the absent id
    99 but is itself referred to by nothing: the List is skipped by the
    declaration emitter, never resolved, and generation returns its text. *)
Lemma C3_dangling_reference_counterexample :
  let types := [ ("1", mkType TString None); ("2", mkType (TList "99") None) ] in
  let entries := [("ping", Api (mkApi "1" "1" None None))] in
  types_get types "2" = Some (mkType (TList "99") None) /\
  types_get types "99" = None /\
  codegen Ok 1 (mkResult types entries) =
    Ok (source_text "" [""; ""]
          (entries_block ["ping: (input: string) => Promise<string>"])).
Proof. repeat split. Qed.

(** C3, amended: generation fails, returning no text, whenever an id that it
    resolves (the type of a field of an Object or Struct entry, or the input
    or output of an endpoint) needs an id absent from the registry: the
    resolved id itself, or one reached from it through items and members of
    nameless Nullable, List, Union and Intersect descriptors.  The call of
    [getFieldType] that looks the absent id up throws; no placeholder is
    ever returned for it. *)
Theorem C3_unresolved_reference_fails (format : string -> result string)
    (fuel : nat) (formatResult : FormatResult) (root wanted : TypeId) :
  types_get (types formatResult) wanted = None ->
  needs (types formatResult) root wanted ->
  getFieldType (S fuel) wanted (types formatResult) = Throw TypeError /\
  fails (getFieldType fuel root (types formatResult)) /\
  (resolved_by_codegen formatResult root ->
   fails (codegen format fuel formatResult)).
Proof.
  intros Habsent Hneeds.
  assert (Hroot : fails (getFieldType fuel root (types formatResult))).
  { now apply getFieldType_needs_fails with wanted. }
  split; [now apply getFieldType_absent|]. split; [exact Hroot|].
  intros Hresolved text Htext.
  unfold codegen in Htext. apply bind_Ok in Htext as (source & Hsource & _).
  apply codegen_source_Ok in Hsource
    as (definitions & exportSet & api & Hdefs & Hapi & _).
  destruct Hresolved
    as [(declaredId & declared & key & field & Hin & Hfield & <-)
       |(endpoint & Hendpoint & Hid)].
  - destruct (handleTypes_Ok_fields _ _ _ _ _ _ _ _ _ _ Hdefs Hin Hfield)
      as [s Hs].
    now apply (Hroot s).
  - destruct (handleEntries_Ok_endpoint _ _ _ _ Hendpoint _ Hapi)
      as (inputType & outputType & Hi & Ho).
    destruct Hid as [<-|<-]; [now apply (Hroot inputType)
                             |now apply (Hroot outputType)].
Qed.

Lemma C3_unresolved_reference_fails_witness :
  let types :=
    [ ("1", mkType TString None); ("2", mkType (TList "99") None);
      ("3", mkType (TObject [("tags", mkField "2" None None)]) (Some "Post")) ] in
  let formatResult := mkResult types [("ping", Api (mkApi "1" "1" None None))] in
  getFieldType 3 "99" types = Throw TypeError /\
  fails (getFieldType 2 "2" types) /\
  fails (codegen Ok 2 formatResult).
Proof.
  intros types formatResult.
  destruct (C3_unresolved_reference_fails Ok 2 formatResult "2" "99")
    as (Hthrow & Hroot & Hgen).
  - reflexivity.
  - apply (needs_item types "2" (mkType (TList "99") None) "99" "99").
    + reflexivity.
    + reflexivity.
    + simpl. tauto.
    + apply needs_self.
  - split; [exact Hthrow|]. split; [exact Hroot|]. apply Hgen. left.
    exists "3",
      (mkType (TObject [("tags", mkField "2" None None)]) (Some "Post")),
      "tags", (mkField "2" None None).
    simpl. tauto.
Defined.

(** ** Documentation comments and an end-to-end run *)

(** The comment block of [attachComment]: none without a description and a
    deprecation note, otherwise one line for each that is present, the
    remarks first. *)
Lemma attachComment_cases (result d p : string) :
  d <> "" -> p <> "" ->
  attachComment result None None = result /\
  attachComment result (Some "") (Some "") = result /\
  attachComment result (Some d) None =
    ("/**" +:+ nl +:+ ("* @remarks " +:+ d) +:+ nl +:+ "*/" +:+ nl)
    +:+ result /\
  attachComment result None (Some p) =
    ("/**" +:+ nl +:+ ("* @depcreated " +:+ p) +:+ nl +:+ "*/" +:+ nl)
    +:+ result /\
  attachComment result (Some d) (Some p) =
    ("/**" +:+ nl +:+
     ("* @remarks " +:+ d +:+ nl +:+ "* @depcreated " +:+ p) +:+ nl +:+
     "*/" +:+ nl) +:+ result.
Proof.
  intros Hd Hp.
  destruct d as [|a d]; [now destruct Hd|].
  destruct p as [|b p]; [now destruct Hp|].
  repeat (split; [reflexivity|]). reflexivity.
Qed.

(** The registry [{1: String}] with the single endpoint [ping] from 1 to 1:
    the aggregate type holds the signature of [ping], and the text has no
    JSON alias. *)
Example codegen_ping :
  let formatResult :=
    mkResult [("1", mkType TString None)]
             [("ping", Api (mkApi "1" "1" None None))] in
  codegen_source 1 formatResult =
    Ok (source_text "" [""]
          (entries_block ["ping: (input: string) => Promise<string>"])) /\
  (s ← codegen_source 1 formatResult; Ok (occurrences sourceOfJsonType s)) =
    Ok 0%nat.
Proof. split; vm_compute; reflexivity. Qed.

(** * Further properties of the generator *)

Set Warnings "-clear-no-such-hyp".

(** ** The remaining composite kinds *)

Lemma getFieldType_Intersect (fuel : nat) (types : FormatTypes) (typeId : TypeId)
    (fieldType : FormatType) (itemTypeIds : list TypeId) :
  types_get types typeId = Some fieldType ->
  name fieldType = None ->
  type fieldType = TIntersect itemTypeIds ->
  getFieldType (S fuel) typeId types =
    (l ← mapM (fun id => getFieldType fuel id types) itemTypeIds;
     Ok (join " & " l)).
Proof. intros Hget Hname Htype. now resolve_step Hget Hname Htype. Qed.

Lemma getFieldType_Literal (fuel : nat) (types : FormatTypes) (typeId : TypeId)
    (fieldType : FormatType) (value : LiteralValue) :
  types_get types typeId = Some fieldType ->
  name fieldType = None ->
  type fieldType = TLiteral value ->
  getFieldType (S fuel) typeId types = Ok (literal_text value).
Proof. intros Hget Hname Htype. now resolve_step Hget Hname Htype. Qed.

(** X1: an unnamed Nullable resolves to the resolution of its item type
    followed by [" | null | undefined"], with both markers, and to nothing
    else; in particular it resolves only if its item type does. *)
Theorem X1_nullable_markers (types : FormatTypes) (typeId : TypeId)
    (fieldType : FormatType) (itemTypeId : TypeId) :
  types_get types typeId = Some fieldType ->
  name fieldType = None ->
  type fieldType = TNullable itemTypeId ->
  (forall s, resolve types itemTypeId s ->
     resolve types typeId (s +:+ " | null | undefined")) /\
  (forall r, resolve types typeId r ->
     exists s, resolve types itemTypeId s /\ r = s +:+ " | null | undefined").
Proof.
  intros Hget Hname Htype. split.
  - intros s [fuel Hs]. exists (S fuel).
    rewrite (getFieldType_Nullable fuel types typeId fieldType itemTypeId
               Hget Hname Htype), Hs.
    reflexivity.
  - intros r [fuel Hr]. destruct fuel as [|fuel]; [discriminate|].
    rewrite (getFieldType_Nullable fuel types typeId fieldType itemTypeId
               Hget Hname Htype) in Hr.
    apply bind_Ok in Hr as (s & Hs & [= <-]).
    exists s. split; [now exists fuel | reflexivity].
Qed.

Lemma X1_nullable_markers_witness :
  resolve [("1", mkType TBoolean None); ("2", mkType (TNullable "1") None)] "2"
    "boolean | null | undefined".
Proof.
  refine (proj1 (X1_nullable_markers _ "2" (mkType (TNullable "1") None) "1" _ _ _)
            "boolean" _); try reflexivity.
  now exists 1%nat.
Defined.

(** X2: an unnamed Intersect resolves to the resolutions of its members
    joined by [" & "], member by member in the order of [itemTypeIds], and
    to nothing else. *)
Theorem X2_intersect_order (types : FormatTypes) (typeId : TypeId)
    (fieldType : FormatType) (itemTypeIds : list TypeId) :
  types_get types typeId = Some fieldType ->
  name fieldType = None ->
  type fieldType = TIntersect itemTypeIds ->
  (forall members, Forall2 (resolve types) itemTypeIds members ->
     resolve types typeId (join " & " members)) /\
  (forall r, resolve types typeId r ->
     exists members, Forall2 (resolve types) itemTypeIds members /\
                     r = join " & " members).
Proof.
  intros Hget Hname Htype. split.
  - intros members Hall. apply resolve_fuel in Hall as [fuel Hall].
    exists (S fuel).
    rewrite (getFieldType_Intersect fuel types typeId fieldType itemTypeIds
               Hget Hname Htype).
    apply mapM_Ok in Hall. now rewrite Hall.
  - intros r [fuel Hr]. destruct fuel as [|fuel]; [discriminate|].
    rewrite (getFieldType_Intersect fuel types typeId fieldType itemTypeIds
               Hget Hname Htype) in Hr.
    apply bind_Ok in Hr as (members & Hall & [= <-]).
    exists members. split; [|reflexivity].
    apply mapM_Ok in Hall. eapply Forall2_impl; [exact Hall|].
    simpl. intros id s Hs. now exists fuel.
Qed.

Lemma X2_intersect_order_witness :
  resolve [("1", mkType (TObject []) (Some "Named"));
           ("2", mkType (TObject []) None);
           ("3", mkType (TIntersect ["2"; "1"]) None)]
          "3" "Type2 & Named".
Proof.
  refine (proj1 (X2_intersect_order _ "3" (mkType (TIntersect ["2"; "1"]) None)
                   ["2"; "1"] _ _ _) ["Type2"; "Named"] _);
    try reflexivity.
  repeat constructor; now exists 1%nat.
Defined.

(** X3: an unnamed Literal resolves to its value and reads nothing else of
    the registry: a string value between two double quotes, character for
    character and without escaping, a boolean as [true] or [false], and a
    number as the text that the template literal gives for it, unquoted. *)
Theorem X3_literal_text (fuel : nat) (types : FormatTypes) (typeId : TypeId)
    (fieldType : FormatType) (value : LiteralValue) :
  types_get types typeId = Some fieldType ->
  name fieldType = None ->
  type fieldType = TLiteral value ->
  getFieldType (S fuel) typeId types =
    Ok match value with
       | LString s => String (ascii_of_nat 34) (s +:+ String (ascii_of_nat 34) "")
       | LNumber text => text
       | LBoolean b => if b then "true" else "false"
       end.
Proof.
  intros Hget Hname Htype.
  rewrite (getFieldType_Literal fuel types typeId fieldType value
             Hget Hname Htype).
  now destruct value as [s|z|[|]].
Qed.

Lemma X3_literal_text_witness :
  getFieldType 1 "5" [("5", mkType (TLiteral (LString "ok")) None);
                    ("6", mkType (TObject []) (Some "ok"))] =
    Ok (String (ascii_of_nat 34) ("ok" +:+ String (ascii_of_nat 34) "")).
Proof.
  apply (X3_literal_text 0 _ "5" (mkType (TLiteral (LString "ok")) None)
           (LString "ok")); reflexivity.
Defined.

(** X4: a Union or Intersect without members resolves to the empty string,
    and one with a single member to the resolution of that member, with no
    separator. *)
Theorem X4_join_edges (types : FormatTypes) (typeId : TypeId)
    (fieldType : FormatType) (itemTypeIds : list TypeId) :
  types_get types typeId = Some fieldType ->
  name fieldType = None ->
  type fieldType = TUnion itemTypeIds \/ type fieldType = TIntersect itemTypeIds ->
  (itemTypeIds = [] -> forall fuel, getFieldType (S fuel) typeId types = Ok "") /\
  (forall member, itemTypeIds = [member] ->
     forall fuel, getFieldType (S fuel) typeId types =
                  getFieldType fuel member types).
Proof.
  intros Hget Hname Htype.
  assert (Hstep : forall fuel, getFieldType (S fuel) typeId types =
    (l ← mapM (fun id => getFieldType fuel id types) itemTypeIds;
     Ok (join " | " l)) \/
    getFieldType (S fuel) typeId types =
    (l ← mapM (fun id => getFieldType fuel id types) itemTypeIds;
     Ok (join " & " l))).
  { intros fuel. destruct Htype as [Htype|Htype].
    - left. now apply getFieldType_Union with fieldType.
    - right. now apply getFieldType_Intersect with fieldType. }
  split.
  - intros -> fuel. now destruct (Hstep fuel) as [->| ->].
  - intros member -> fuel.
    destruct (Hstep fuel) as [->| ->]; rewrite mapM_cons;
      now destruct (getFieldType fuel member types).
Qed.

Lemma X4_join_edges_witness :
  getFieldType 1 "1" [("1", mkType (TUnion []) None)] = Ok "" /\
  getFieldType 2 "2"
    [("1", mkType TID None); ("2", mkType (TIntersect ["1"]) None)] =
  getFieldType 1 "1"
    [("1", mkType TID None); ("2", mkType (TIntersect ["1"]) None)].
Proof.
  split.
  - apply (proj1 (X4_join_edges [("1", mkType (TUnion []) None)] "1"
                    (mkType (TUnion []) None) [] eq_refl eq_refl
                    (or_introl eq_refl)) eq_refl 0%nat).
  - apply (proj2 (X4_join_edges
                    [("1", mkType TID None);
                     ("2", mkType (TIntersect ["1"]) None)] "2"
                    (mkType (TIntersect ["1"]) None) ["1"] eq_refl eq_refl
                    (or_intror eq_refl)) "1" eq_refl 1%nat).
Defined.

(** ** Names of declarations and of references *)

(** X5: the name under which [handleType] declares the Object or Struct at
    a registry id is the name to which [getFieldType] resolves that id: the
    display name when it is non-empty (an exported declaration), and
    ['Type' + id] otherwise (a local declaration). *)
Theorem X5_reference_names_declaration (fuel fuel' : nat)
    (types : FormatTypes) (exportSet exportSet' : gset string) (id : TypeId)
    (formatType : FormatType) (text : string) :
  types_get types id = Some formatType ->
  isInlineType formatType = false ->
  handleType fuel types exportSet id formatType =
    Ok (text, exportSet') ->
  exists typeName fileds,
    getFieldType (S fuel') id types = Ok typeName /\
    mapM (handleField fuel types) (fields_of formatType) = Ok fileds /\
    ((truthy_opt (name formatType) = true /\
      name formatType = Some typeName /\
      text = exported_declaration typeName fileds) \/
     (truthy_opt (name formatType) = false /\
      typeName = getTypeNameById id /\
      text = local_declaration typeName fileds)).
Proof.
  intros Hget Hinline H.
  rewrite handleType_declared in H by assumption.
  apply bind_Ok in H as (fileds & Hfileds & H).
  rewrite getFieldType_unfold. unfold getFieldType_body.
  rewrite Hget. unfold getTypeName. cbv zeta.
  destruct (truthy_opt (name formatType)) eqn:Hname.
  - destruct (name formatType) as [typeName|]; [|discriminate].
    simpl in H |- *.
    destruct (decide (typeName ∈ exportSet)); [discriminate|].
    injection H as <- _. exists typeName, fileds. intuition.
  - rewrite Hinline. simpl. injection H as <- _.
    exists (getTypeNameById id), fileds. intuition.
Qed.

Lemma X5_reference_names_declaration_witness :
  let types := [ ("1", mkType TString None);
                 ("2", mkType (TStruct [("id", mkField "1" None None)]) None) ] in
  exists typeName fileds,
    getFieldType 1 "2" types = Ok typeName /\
    mapM (handleField 1 types) [("id", mkField "1" None None)] = Ok fileds /\
    typeName = "Type2" /\
    local_declaration "Type2" ["id: string"] =
      local_declaration typeName fileds.
Proof.
  intros types.
  destruct (X5_reference_names_declaration 1 0 types ∅ ∅ "2"
              (mkType (TStruct [("id", mkField "1" None None)]) None)
              (local_declaration "Type2" ["id: string"]))
    as (typeName & fileds & Href & Hfileds & [(Hn & _)|(_ & Hname & Htext)]).
  - reflexivity.
  - reflexivity.
  - reflexivity.
  - discriminate Hn.
  - exists typeName, fileds. repeat split; assumption.
Defined.

(** ** Termination and cycles *)

Lemma bind_returns {A B} (m : result A) (k : A -> result B) :
  m <> OutOfFuel -> (forall a, k a <> OutOfFuel) -> m ≫= k <> OutOfFuel.
Proof. destruct m; simpl; auto; discriminate. Qed.

Lemma mapM_returns {A B} (f : A -> result B) (l : list A) :
  (forall x, In x l -> f x <> OutOfFuel) -> mapM f l <> OutOfFuel.
Proof.
  induction l as [|x l IH]; intros Hall; [discriminate|].
  rewrite mapM_cons. apply bind_returns; [apply Hall; now left|].
  intros y. apply bind_returns; [apply IH; intros; apply Hall; now right|].
  discriminate.
Qed.

(** X7: in a registry whose ids can be ranked so that every item or member
    of a nameless descriptor ranks below the descriptor (as when each refers
    only to smaller numeric ids), and where no nameless descriptor is a
    Record, the resolution of an id ends within a recursion depth of its
    rank plus one: it returns a string or throws. *)
Theorem X7_descending_references_terminate (types : FormatTypes)
    (rank : TypeId -> nat) :
  (forall id fieldType itemTypeId,
     types_get types id = Some fieldType ->
     truthy_opt (name fieldType) = false ->
     In itemTypeId (item_ids fieldType) ->
     (rank itemTypeId < rank id)%nat) ->
  (forall id fieldType itemTypeId,
     types_get types id = Some fieldType ->
     truthy_opt (name fieldType) = false ->
     type fieldType <> TRecord itemTypeId) ->
  forall id fuel, (rank id < fuel)%nat ->
    getFieldType fuel id types <> OutOfFuel.
Proof.
  intros Hdown Hrecord.
  assert (Hmain : forall n id, rank id = n ->
            getFieldType (S n) id types <> OutOfFuel).
  { intros n. induction n as [n IH] using (well_founded_induction lt_wf).
    intros id Hrank.
    assert (Hitem : forall item, (rank item < n)%nat ->
              getFieldType n item types <> OutOfFuel).
    { intros item Hlt Hout. apply (IH (rank item) Hlt item eq_refl).
      destruct (getFieldType (S (rank item)) item types) eqn:E;
        try reflexivity;
        rewrite (getFieldType_le _ n _ _ _ E) in Hout
          by (discriminate || lia); discriminate. }
    rewrite getFieldType_unfold. unfold getFieldType_body.
    destruct (types_get types id) as [fieldType|] eqn:Hget; [|discriminate].
    unfold getTypeName. cbv zeta.
    destruct (truthy_opt (name fieldType)) eqn:Hname; [discriminate|].
    destruct (negb (isInlineType fieldType)); [discriminate|].
    specialize (Hdown id fieldType). specialize (Hrecord id fieldType).
    rewrite Hrank in Hdown. unfold item_ids in Hdown.
    destruct (type fieldType) eqn:Htype; try discriminate.
    - now destruct (Hrecord itemTypeId Hget Hname).
    - apply bind_returns; [|discriminate].
      apply Hitem, Hdown; simpl; auto.
    - apply bind_returns; [|discriminate].
      apply Hitem, Hdown; simpl; auto.
    - apply bind_returns; [|discriminate].
      apply mapM_returns. intros item Hin. apply Hitem, Hdown; auto.
    - apply bind_returns; [|discriminate].
      apply mapM_returns. intros item Hin. apply Hitem, Hdown; auto. }
  intros id fuel Hlt Hout. apply (Hmain (rank id) id eq_refl).
  destruct (getFieldType (S (rank id)) id types) eqn:E; try reflexivity;
    rewrite (getFieldType_le _ fuel _ _ _ E) in Hout by (discriminate || lia);
    discriminate.
Qed.

Lemma X7_descending_references_terminate_witness :
  getFieldType 3 "3"
    [ ("1", mkType TString None); ("2", mkType (TList "1") None);
      ("3", mkType (TUnion ["2"; "1"; "0"]) None) ] <> OutOfFuel.
Proof.
  apply (X7_descending_references_terminate
           [ ("1", mkType TString None); ("2", mkType (TList "1") None);
             ("3", mkType (TUnion ["2"; "1"; "0"]) None) ]
           (fun id => if String.eqb id "3" then 2
                      else if String.eqb id "2" then 1 else 0)%nat).
  - intros id fieldType itemTypeId Hget _ Hin.
    apply types_get_In in Hget. simpl in Hget.
    destruct Hget as [[= <- <-]|[[= <- <-]|[[= <- <-]|[]]]]; simpl in Hin;
      intuition (subst; simpl; lia).
  - intros id fieldType itemTypeId Hget _ Htype.
    apply types_get_In in Hget. simpl in Hget.
    destruct Hget as [[= <- <-]|[[= <- <-]|[[= <- <-]|[]]]]; discriminate.
  - simpl. lia.
Defined.

Lemma getFieldType_Ok_item (fuel : nat) (types : FormatTypes) (typeId : TypeId)
    (fieldType : FormatType) (itemTypeId : TypeId) (s : string) :
  types_get types typeId = Some fieldType ->
  truthy_opt (name fieldType) = false ->
  In itemTypeId (item_ids fieldType) ->
  getFieldType (S fuel) typeId types = Ok s ->
  exists s', getFieldType fuel itemTypeId types = Ok s'.
Proof.
  intros Hget Hname Hin. rewrite getFieldType_unfold.
  unfold getFieldType_body. rewrite Hget. unfold getTypeName. cbv zeta.
  rewrite Hname. unfold item_ids in Hin. unfold isInlineType.
  destruct (type fieldType); simpl in Hin |- *; try (now destruct Hin);
    intros H; apply bind_Ok in H as (x & Hx & _).
  - destruct Hin as [<-|[]]. eauto.
  - destruct Hin as [<-|[]]. eauto.
  - now apply (mapM_Ok_In _ _ _ itemTypeId Hx).
  - now apply (mapM_Ok_In _ _ _ itemTypeId Hx).
Qed.

Lemma getFieldType_Ok_needs (types : FormatTypes) (typeId wanted : TypeId) :
  needs types typeId wanted ->
  forall fuel s, getFieldType fuel typeId types = Ok s ->
  exists fuel' s', (fuel' <= fuel)%nat /\
                   getFieldType fuel' wanted types = Ok s'.
Proof.
  induction 1 as [typeId|typeId fieldType itemTypeId wanted Hget Hname Hin _ IH];
    intros fuel s Hs.
  - now exists fuel, s.
  - destruct fuel as [|fuel]; [discriminate|].
    destruct (getFieldType_Ok_item fuel types typeId fieldType itemTypeId s
                Hget Hname Hin Hs) as [s1 Hs1].
    destruct (IH fuel s1 Hs1) as (fuel' & s' & Hle & Hs').
    exists fuel', s'. split; [lia | assumption].
Qed.

(** X8: a nameless Nullable, List, Union or Intersect that reaches itself
    through items and members of nameless descriptors of these kinds never
    resolves: the call returns no string, whatever the depth allowed. *)
Theorem X8_cycle_never_resolves (types : FormatTypes) (typeId : TypeId)
    (fieldType : FormatType) (itemTypeId : TypeId) :
  types_get types typeId = Some fieldType ->
  truthy_opt (name fieldType) = false ->
  In itemTypeId (item_ids fieldType) ->
  needs types itemTypeId typeId ->
  forall fuel, fails (getFieldType fuel typeId types).
Proof.
  intros Hget Hname Hin Hback fuel.
  induction fuel as [fuel IH] using (well_founded_induction lt_wf).
  intros s Hs. destruct fuel as [|fuel]; [discriminate|].
  destruct (getFieldType_Ok_item fuel types typeId fieldType itemTypeId s
              Hget Hname Hin Hs) as [s1 Hs1].
  destruct (getFieldType_Ok_needs types itemTypeId typeId Hback fuel s1 Hs1)
    as (fuel' & s' & Hle & Hs').
  apply (IH fuel' ltac:(lia) s' Hs').
Qed.

Lemma X8_cycle_never_resolves_witness :
  fails (getFieldType 9 "1"
           [ ("1", mkType (TList "2") None); ("2", mkType (TNullable "1") None) ]).
Proof.
  refine (X8_cycle_never_resolves
            [ ("1", mkType (TList "2") None); ("2", mkType (TNullable "1") None) ]
            "1" (mkType (TList "2") None) "2" _ _ _ _ 9%nat).
  - reflexivity.
  - reflexivity.
  - simpl. tauto.
  - apply (needs_item _ "2" (mkType (TNullable "1") None) "1" "1").
    + reflexivity.
    + reflexivity.
    + simpl. tauto.
    + apply needs_self.
Defined.

(** ** Declarations and the export set *)

Lemma exported_names_cons (typeId : TypeId) (formatType : FormatType)
    (rest : FormatTypes) :
  exported_names ((typeId, formatType) :: rest) =
    match exported_name formatType with
    | Some typeName => typeName :: exported_names rest
    | None => exported_names rest
    end.
Proof. reflexivity. Qed.

Lemma handleType_Ok (fuel : nat) (types : FormatTypes)
    (exportSet exportSet' : gset string) (typeId : string)
    (formatType : FormatType) (text : string) :
  handleType fuel types exportSet typeId formatType = Ok (text, exportSet') ->
  (if isInlineType formatType then text = ""
   else exists fileds,
     mapM (handleField fuel types) (fields_of formatType) = Ok fileds /\
     text = match exported_name formatType with
            | Some typeName => exported_declaration typeName fileds
            | None => local_declaration (getTypeNameById typeId) fileds
            end) /\
  match exported_name formatType with
  | Some typeName =>
      (typeName ∉ exportSet) /\ exportSet' = {[typeName]} ∪ exportSet
  | None => exportSet' = exportSet
  end.
Proof.
  unfold exported_name.
  destruct (isInlineType formatType) eqn:Hinline.
  - rewrite handleType_inline by assumption. now intros [= <- <-].
  - rewrite handleType_declared by assumption. intros H.
    apply bind_Ok in H as (fileds & Hfileds & H).
    destruct (name formatType) as [[|c typeName]|]; simpl in H |- *.
    + injection H as <- <-. split; [now exists fileds | reflexivity].
    + destruct (decide (String c typeName ∈ exportSet)); [discriminate|].
      injection H as <- <-. split; [now exists fileds | now split].
    + injection H as <- <-. split; [now exists fileds | reflexivity].
Qed.

(** X9: when the declaration emitter returns, it has produced one text for
    each registry entry, in registry order: the empty text for an entry
    that is not an Object or a Struct, and otherwise the declaration of the
    entry, exported under its display name or local under ['Type' + id],
    over its rendered fields. *)
Theorem X9_one_definition_per_entry (fuel : nat) (types : FormatTypes)
    (formatTypes : FormatTypes) (exportSet exportSet' : gset string)
    (definitions : list string) :
  handleTypes fuel types exportSet formatTypes = Ok (definitions, exportSet') ->
  Forall2
    (fun entry definition =>
       if isInlineType entry.2 then definition = ""
       else exists fileds,
         mapM (handleField fuel types) (fields_of entry.2) = Ok fileds /\
         definition =
           match exported_name entry.2 with
           | Some typeName => exported_declaration typeName fileds
           | None =>
               local_declaration (getTypeNameById entry.1) fileds
           end)
    formatTypes definitions.
Proof.
  revert exportSet exportSet' definitions.
  induction formatTypes as [|[id formatType] rest IH];
    intros exportSet exportSet' definitions H.
  - injection H as <- _. constructor.
  - rewrite handleTypes_cons in H.
    apply bind_Ok in H as ([definition exportSet1] & Hhead & H).
    apply bind_Ok in H as ([definitions' exportSet2] & Hrest & [= <- _]).
    constructor; [|now apply (IH exportSet1 exportSet2)].
    now apply handleType_Ok in Hhead as [Htext _].
Qed.

Lemma X9_one_definition_per_entry_witness :
  let types := [ ("1", mkType TString None);
                 ("2", mkType (TObject [("id", mkField "1" None None)]) (Some "User"));
                 ("3", mkType (TList "2") None) ] in
  Forall2
    (fun entry definition =>
       if isInlineType entry.2 then definition = ""
       else exists fileds,
         mapM (handleField 1 types) (fields_of entry.2) = Ok fileds /\
         definition =
           match exported_name entry.2 with
           | Some typeName => exported_declaration typeName fileds
           | None =>
               local_declaration (getTypeNameById entry.1) fileds
           end)
    types [""; exported_declaration "User" ["id: string"]; ""].
Proof.
  intros types.
  apply (X9_one_definition_per_entry 1 types types ∅ ({["User"]} ∪ ∅)).
  reflexivity.
Defined.

Lemma handleTypes_Ok_exported (fuel : nat) (types : FormatTypes)
    (formatTypes : FormatTypes) (exportSet exportSet' : gset string)
    (definitions : list string) :
  handleTypes fuel types exportSet formatTypes = Ok (definitions, exportSet') ->
  exportSet' = list_to_set (exported_names formatTypes) ∪ exportSet /\
  NoDup (exported_names formatTypes) /\
  (forall typeName, typeName ∈ exported_names formatTypes ->
                    typeName ∉ exportSet).
Proof.
  revert exportSet exportSet' definitions.
  induction formatTypes as [|[id formatType] rest IH];
    intros exportSet exportSet' definitions H.
  - injection H as _ <-. split; [set_solver|]. split; [constructor|].
    intros typeName Hin. inversion Hin.
  - rewrite handleTypes_cons in H.
    apply bind_Ok in H as ([definition exportSet1] & Hhead & H).
    apply bind_Ok in H as ([definitions' exportSet2] & Hrest & [= _ <-]).
    apply handleType_Ok in Hhead as [_ Hset].
    apply IH in Hrest as (Hunion & Hnodup & Hfresh).
    rewrite exported_names_cons.
    destruct (exported_name formatType) as [typeName|].
    + destruct Hset as [Hnew ->]. split; [set_solver|]. split.
      * constructor; [|assumption]. intros Hin.
        apply (Hfresh typeName Hin). set_solver.
      * intros typeName' Hin Hold.
        apply elem_of_cons in Hin as [->|Hin]; [now apply Hnew|].
        apply (Hfresh typeName' Hin). set_solver.
    + subst exportSet1. now repeat split.
Qed.

(** X10: when the declaration emitter returns, the export set has grown by
    exactly the exported names of the entries it went through; these names
    are pairwise distinct and none of them was in the set before. *)
Theorem X10_export_set_invariant (fuel : nat) (types : FormatTypes)
    (formatTypes : FormatTypes) (exportSet exportSet' : gset string)
    (definitions : list string) :
  handleTypes fuel types exportSet formatTypes = Ok (definitions, exportSet') ->
  exportSet' = list_to_set (exported_names formatTypes) ∪ exportSet /\
  NoDup (exported_names formatTypes) /\
  (forall typeName, typeName ∈ exported_names formatTypes ->
                    typeName ∉ exportSet).
Proof. apply handleTypes_Ok_exported. Qed.

Lemma X10_export_set_invariant_witness :
  let types := [ ("1", mkType (TObject []) (Some "A"));
                 ("2", mkType (TObject []) None);
                 ("3", mkType (TStruct []) (Some "B")) ] in
  {["B"]} ∪ ({["A"]} ∪ ∅) = list_to_set (exported_names types) ∪ (∅ : gset string) /\
  NoDup (exported_names types) /\
  (forall typeName, typeName ∈ exported_names types ->
                    typeName ∉ (∅ : gset string)).
Proof.
  intros types.
  apply (X10_export_set_invariant 0 types types ∅ _
           [ exported_declaration "A" []; local_declaration "Type2" [];
             exported_declaration "B" [] ]).
  reflexivity.
Defined.

(** ** The errors of a generation *)

Lemma bind_Throw {A B} (m : result A) (k : A -> result B) (e : Error) :
  m ≫= k = Throw e -> m = Throw e \/ exists a, m = Ok a /\ k a = Throw e.
Proof.
  destruct m as [a|e'|]; simpl; intros H.
  - right. now exists a.
  - left. congruence.
  - discriminate.
Qed.

Lemma mapM_Throw {A B} (f : A -> result B) (l : list A) (e : Error) :
  mapM f l = Throw e -> exists x, In x l /\ f x = Throw e.
Proof.
  induction l as [|x l IH]; [discriminate|].
  rewrite mapM_cons. intros H.
  apply bind_Throw in H as [H|(y & _ & H)]; [exists x; split; [now left|easy]|].
  apply bind_Throw in H as [H|(k & _ & H)]; [|discriminate].
  destruct (IH H) as (x' & Hin & Hx'). exists x'. split; [now right|easy].
Qed.

Lemma getFieldType_Throw (fuel : nat) (types : FormatTypes) (typeId : TypeId)
    (e : Error) :
  getFieldType fuel typeId types = Throw e ->
  exists wanted,
    needs types typeId wanted /\
    ((e = TypeError /\ types_get types wanted = None) \/
     (exists fieldType tag,
        e = UnsupportedField fieldType /\
        types_get types wanted = Some fieldType /\
        truthy_opt (name fieldType) = false /\
        type fieldType = TOther tag)).
Proof.
  revert typeId. induction fuel as [|fuel IH]; intros typeId; [discriminate|].
  rewrite getFieldType_unfold. unfold getFieldType_body.
  destruct (types_get types typeId) as [fieldType|] eqn:Hget.
  - unfold getTypeName. cbv zeta.
    destruct (truthy_opt (name fieldType)) eqn:Hname; [discriminate|].
    unfold isInlineType.
    assert (Hitem : forall itemTypeId,
      In itemTypeId (item_ids fieldType) ->
      getFieldType fuel itemTypeId types = Throw e ->
      exists wanted,
        needs types typeId wanted /\
        ((e = TypeError /\ types_get types wanted = None) \/
         (exists fieldType tag,
            e = UnsupportedField fieldType /\
            types_get types wanted = Some fieldType /\
            truthy_opt (name fieldType) = false /\
            type fieldType = TOther tag))).
    { intros itemTypeId Hin Hthrow.
      destruct (IH itemTypeId Hthrow) as (wanted & Hneeds & Hwhy).
      exists wanted. split; [|exact Hwhy].
      now apply (needs_item types typeId fieldType itemTypeId wanted). }
    unfold item_ids in Hitem.
    destruct (type fieldType) eqn:Htype; simpl; try discriminate; intros H.
    + apply bind_Throw in H as [H|(s & _ & H)]; [|discriminate].
      now apply IH.
    + apply bind_Throw in H as [H|(s & _ & H)]; [|discriminate].
      apply (Hitem itemTypeId); simpl; auto.
    + apply bind_Throw in H as [H|(s & _ & H)]; [|discriminate].
      apply (Hitem itemTypeId); simpl; auto.
    + apply bind_Throw in H as [H|(s & _ & H)]; [|discriminate].
      apply mapM_Throw in H as (member & Hin & H). now apply (Hitem member).
    + apply bind_Throw in H as [H|(s & _ & H)]; [|discriminate].
      apply mapM_Throw in H as (member & Hin & H). now apply (Hitem member).
    + injection H as <-. exists typeId. split; [apply needs_self|].
      right. now exists fieldType, tag.
  - intros [= <-]. exists typeId. split; [apply needs_self|]. now left.
Qed.

(** X11: when [getFieldType] throws, an id that the resolution needs is to
    blame: either the registry lacks it, and the error is the failed lookup,
    or its descriptor is nameless and of no known kind, and the error is
    the unsupported-field error carrying that descriptor.  In particular
    the lookup error is thrown only for an id that is really absent. *)
Theorem X11_resolution_errors (fuel : nat) (types : FormatTypes) (typeId : TypeId)
    (e : Error) :
  getFieldType fuel typeId types = Throw e ->
  exists wanted,
    needs types typeId wanted /\
    ((e = TypeError /\ types_get types wanted = None) \/
     (exists fieldType tag,
        e = UnsupportedField fieldType /\
        types_get types wanted = Some fieldType /\
        truthy_opt (name fieldType) = false /\
        type fieldType = TOther tag)).
Proof. apply getFieldType_Throw. Qed.

Lemma X11_resolution_errors_witness :
  let types := [ ("1", mkType (TList "2") None);
                 ("2", mkType (TUnion ["3"; "4"]) None);
                 ("3", mkType TString None) ] in
  exists wanted,
    needs types "1" wanted /\
    ((TypeError = TypeError /\ types_get types wanted = None) \/
     (exists fieldType tag,
        TypeError = UnsupportedField fieldType /\
        types_get types wanted = Some fieldType /\
        truthy_opt (name fieldType) = false /\
        type fieldType = TOther tag)).
Proof.
  intros types.
  apply (X11_resolution_errors 3 types "1" TypeError). reflexivity.
Defined.

Lemma getFieldType_no_duplicate (fuel : nat) (types : FormatTypes)
    (typeId : TypeId) (typeName : string) :
  getFieldType fuel typeId types <> Throw (DuplicateName typeName).
Proof.
  intros H. apply getFieldType_Throw in H
    as (wanted & _ & [[H _]|(fieldType & tag & H & _)]); discriminate.
Qed.

(** Induction on an endpoint tree, with the property known of the members
    of a namespace. *)
Lemma FormatEntry_tree_ind (P : FormatEntry -> Prop) :
  (forall api, P (Api api)) ->
  (forall children, (forall key field, In (key, field) children -> P field) ->
                    P (Entries children)) ->
  forall field, P field.
Proof.
  intros HApi HEntries. fix IH 1. intros [api|children].
  - apply HApi.
  - apply HEntries. induction children as [|[key' field'] rest IHrest].
    + intros key field [].
    + intros key field [[= <- <-]|Hin].
      * apply IH.
      * now apply (IHrest key field).
Qed.

Lemma handleEntry_no_duplicate (fuel : nat) (types : FormatTypes)
    (field : FormatEntry) :
  forall key typeName,
    handleEntry fuel types key field <> Throw (DuplicateName typeName).
Proof.
  induction field as [api|children IH] using FormatEntry_tree_ind;
    intros key typeName H.
  - simpl in H. apply bind_Throw in H as [H|(r & _ & H)]; [|discriminate].
    unfold handleApi in H.
    apply bind_Throw in H as [H|(i & _ & H)];
      [now apply getFieldType_no_duplicate in H|].
    apply bind_Throw in H as [H|(o & _ & H)];
      [now apply getFieldType_no_duplicate in H|discriminate].
  - simpl in H. apply bind_Throw in H as [H|(fields & _ & H)]; [|discriminate].
    apply mapM_Throw in H as ([key' field'] & Hin & H).
    now apply (IH key' field' Hin key' typeName).
Qed.

Lemma handleEntries_no_duplicate (fuel : nat) (types : FormatTypes)
    (entries : FormatEntries) (typeName : string) :
  handleEntries fuel types entries <> Throw (DuplicateName typeName).
Proof.
  intros H.
  apply (handleEntry_no_duplicate fuel types (Entries entries) "" typeName).
  rewrite handleEntry_Entries. now rewrite H.
Qed.

Lemma handleType_duplicate (fuel : nat) (types : FormatTypes)
    (exportSet : gset string) (typeId : string) (formatType : FormatType)
    (typeName : string) :
  handleType fuel types exportSet typeId formatType =
    Throw (DuplicateName typeName) ->
  exported_name formatType = Some typeName /\ typeName ∈ exportSet.
Proof.
  unfold exported_name.
  destruct (isInlineType formatType) eqn:Hinline.
  - rewrite handleType_inline by assumption. discriminate.
  - rewrite handleType_declared by assumption. intros H.
    apply bind_Throw in H as [H|(fileds & _ & H)].
    + apply mapM_Throw in H as ([key field] & _ & H).
      unfold handleField in H.
      apply bind_Throw in H as [H|(t & _ & H)]; [|discriminate].
      now apply getFieldType_no_duplicate in H.
    + destruct (name formatType) as [[|c name]|]; simpl in H |- *;
        try discriminate.
      destruct (decide (String c name ∈ exportSet)); [|discriminate].
      injection H as <-. now split.
Qed.

Lemma handleTypes_duplicate (fuel : nat) (types : FormatTypes)
    (formatTypes : FormatTypes) (exportSet : gset string) (typeName : string) :
  handleTypes fuel types exportSet formatTypes =
    Throw (DuplicateName typeName) ->
  exists before entry after,
    formatTypes = (before ++ entry :: after)%list /\
    exported_name entry.2 = Some typeName /\
    (typeName ∈ exportSet \/ typeName ∈ exported_names before).
Proof.
  revert exportSet.
  induction formatTypes as [|[id formatType] rest IH]; intros exportSet H;
    [discriminate|].
  rewrite handleTypes_cons in H.
  apply bind_Throw in H as [H|([definition exportSet1] & Hhead & H)].
  - apply handleType_duplicate in H as [Hname Hin].
    exists [], (id, formatType), rest. repeat split; auto.
  - apply bind_Throw in H as [H|([definitions exportSet2] & _ & H)];
      [|discriminate].
    apply IH in H as (before & entry & after & -> & Hname & Hseen).
    exists ((id, formatType) :: before), entry, after.
    split; [reflexivity|]. split; [assumption|].
    apply handleType_Ok in Hhead as [_ Hset].
    rewrite exported_names_cons.
    destruct (exported_name formatType) as [first|].
    + destruct Hset as [_ ->].
      destruct Hseen as [Hseen|Hseen]; [|right; now right].
      apply elem_of_union in Hseen as [Hseen|Hseen]; [|now left].
      apply elem_of_singleton in Hseen as ->. right. now left.
    + now subst exportSet1.
Qed.

(** X12: the duplicate-name error is thrown only for a real collision: when
    the assembling of the text throws it for a name, the registry has an
    Object or Struct entry exported under that name and an earlier entry
    exported under the same name. *)
Theorem X12_duplicate_error_sound (fuel : nat) (formatResult : FormatResult)
    (typeName : string) :
  codegen_source fuel formatResult = Throw (DuplicateName typeName) ->
  exists before entry after,
    types formatResult = (before ++ entry :: after)%list /\
    exported_name entry.2 = Some typeName /\
    typeName ∈ exported_names before.
Proof.
  unfold codegen_source. intros H.
  apply bind_Throw in H as [H|([definitions exportSet] & _ & H)].
  - apply handleTypes_duplicate in H
      as (before & entry & after & Hsplit & Hname & [Hin|Hin]);
      [now apply not_elem_of_empty in Hin|].
    now exists before, entry, after.
  - apply bind_Throw in H as [H|(api & _ & H)]; [|discriminate].
    now apply handleEntries_no_duplicate in H.
Qed.

Lemma X12_duplicate_error_sound_witness :
  let types := [ ("1", mkType (TObject []) (Some "Foo"));
                 ("2", mkType TString (Some "Foo"));
                 ("3", mkType (TStruct []) (Some "Foo")) ] in
  exists before entry after,
    types = (before ++ entry :: after)%list /\
    exported_name entry.2 = Some "Foo" /\
    "Foo" ∈ exported_names before.
Proof.
  intros types.
  apply (X12_duplicate_error_sound 0 (mkResult types []) "Foo").
  reflexivity.
Defined.

(** ** When a generation succeeds *)

Lemma exported_names_app (before after : FormatTypes) :
  exported_names (before ++ after)%list =
    (exported_names before ++ exported_names after)%list.
Proof. unfold exported_names. apply omap_app. Qed.

Lemma handleTypes_total (fuel : nat) (types formatTypes : FormatTypes) :
  NoDup (exported_names formatTypes) ->
  (forall id formatType key field,
     In (id, formatType) formatTypes ->
     In (key, field) (fields_of formatType) ->
     exists s, getFieldType fuel (typeId field) types = Ok s) ->
  exists definitions exportSet,
    handleTypes fuel types ∅ formatTypes = Ok (definitions, exportSet).
Proof.
  intros Hnodup Hfields.
  destruct (handleTypes_outcome fuel types formatTypes ∅ Hfields)
    as [H|[typeName H]]; [exact H|].
  apply handleTypes_duplicate in H
    as (before & [id formatType] & after & -> & Hname & [Hin|Hin]);
    [now apply not_elem_of_empty in Hin|].
  rewrite exported_names_app, exported_names_cons in Hnodup.
  simpl in Hname. rewrite Hname in Hnodup.
  apply NoDup_app in Hnodup as (_ & Hdisjoint & _).
  destruct (Hdisjoint typeName Hin). now left.
Qed.

Lemma handleEntry_total (fuel : nat) (types : FormatTypes)
    (field : FormatEntry) :
  forall key,
    (forall api, endpoint_of [(key, field)] api ->
                 endpoint_resolves fuel types api) ->
    exists s, handleEntry fuel types key field = Ok s.
Proof.
  induction field as [api|children IH] using FormatEntry_tree_ind;
    intros key Hall.
  - destruct (Hall api) as [[inputType Hi] [outputType Ho]].
    { apply (endpoint_here key). now left. }
    simpl. rewrite (handleApi_Ok fuel types api inputType outputType Hi Ho).
    simpl. eauto.
  - simpl.
    destruct (mapM_total
                (fun '(key, field) => handleEntry fuel types key field)
                children) as [fields ->]; [|simpl; eauto].
    intros [key' field'] Hin. apply (IH key' field' Hin key').
    intros api Hapi. apply Hall.
    apply (endpoint_below key children); [now left|].
    inversion Hapi as [k a es Hhere|k c es a Hbelow Hc]; subst.
    + destruct Hhere as [[= ? ?]|[]]; subst.
      eapply endpoint_here; eassumption.
    + destruct Hbelow as [[= ? ?]|[]]; subst.
      eapply endpoint_below; eassumption.
Qed.

Lemma handleEntries_total (fuel : nat) (types : FormatTypes)
    (entries : FormatEntries) :
  (forall api, endpoint_of entries api -> endpoint_resolves fuel types api) ->
  exists text, handleEntries fuel types entries = Ok text.
Proof.
  intros Hall.
  destruct (handleEntry_total fuel types (Entries entries) "") as [s Hs].
  - intros api Hapi.
    inversion Hapi as [k a es Hhere|k c es a Hbelow Hc]; subst.
    + now destruct Hhere as [[=]|[]].
    + destruct Hbelow as [[= ? ?]|[]]; subst. now apply Hall.
  - rewrite handleEntry_Entries in Hs.
    apply bind_Ok in Hs as (text & Htext & _). eauto.
Qed.

(** X13: at a given recursion depth, the text is assembled exactly when the
    exported names of the registry are pairwise distinct, the type of every
    field of its Object and Struct entries resolves, and the input and the
    output of every endpoint of the tree resolve.  The pretty-printer is
    then called on that text, and its outcome is the outcome of [codegen]. *)
Theorem X13_generation_succeeds_iff (fuel : nat) (formatResult : FormatResult) :
  (exists source,
     codegen_source fuel formatResult = Ok source /\
     forall format, codegen format fuel formatResult = format source) <->
  NoDup (exported_names (types formatResult)) /\
  (forall id formatType key field,
     In (id, formatType) (types formatResult) ->
     In (key, field) (fields_of formatType) ->
     exists s, getFieldType fuel (typeId field) (types formatResult) = Ok s) /\
  (forall api, endpoint_of (entries formatResult) api ->
               endpoint_resolves fuel (types formatResult) api).
Proof.
  split.
  - intros (source & H & _).
    apply codegen_source_Ok in H
      as (definitions & exportSet & api & Hdefs & Hapi & _).
    split; [|split].
    + now apply (handleTypes_Ok_exported _ _ _ _ _ _ Hdefs).
    + intros id formatType key field Hin Hfield.
      exact (handleTypes_Ok_fields _ _ _ _ _ _ _ _ _ _ Hdefs Hin Hfield).
    + intros endpoint Hendpoint.
      destruct (handleEntries_Ok_endpoint _ _ _ _ Hendpoint _ Hapi)
        as (inputType & outputType & Hi & Ho).
      split; eauto.
  - intros (Hnodup & Hfields & Hendpoints).
    destruct (handleTypes_total fuel (types formatResult)
                (types formatResult) Hnodup Hfields)
      as (definitions & exportSet & Hdefs).
    destruct (handleEntries_total fuel (types formatResult)
                (entries formatResult) Hendpoints) as [api Hapi].
    eexists. split.
    + apply codegen_source_Ok. exists definitions, exportSet, api.
      repeat split; eassumption.
    + intros format. unfold codegen, codegen_source.
      rewrite Hdefs. simpl. rewrite Hapi. reflexivity.
Qed.

Lemma X13_generation_succeeds_iff_witness :
  let formatResult :=
    mkResult [ ("1", mkType TString None);
               ("2", mkType (TObject [("name", mkField "1" None None)]) (Some "User")) ]
             [("users", Entries [("get", Api (mkApi "1" "2" None None))])] in
  exists source,
    codegen_source 1 formatResult = Ok source /\
    forall format, codegen format 1 formatResult = format source.
Proof.
  intros formatResult.
  apply (proj2 (X13_generation_succeeds_iff 1 formatResult)).
  split; [|split].
  - repeat constructor. intros H. inversion H.
  - intros id formatType key field Hin Hfield. simpl in Hin.
    destruct Hin as [[= <- <-]|[[= <- <-]|[]]]; simpl in Hfield.
    + destruct Hfield.
    + destruct Hfield as [[= <- <-]|[]]. now exists "string".
  - intros api Hapi.
    assert (Hget : api = mkApi "1" "2" None None).
    { inversion Hapi as [k a es Hhere|k c es a Hbelow Hc]; subst.
      - now destruct Hhere as [[=]|[]].
      - destruct Hbelow as [[= ? ?]|[]]; subst.
        inversion Hc as [k' a' es' Hhere|k' c' es' a' Hbelow' Hc']; subst.
        + now destruct Hhere as [[= ? ?]|[]].
        + now destruct Hbelow' as [[=]|[]]. }
    subst api. split; [now exists "string" | now exists "User"].
Defined.

(** ** Documentation comments *)

(** X14: [attachComment] puts before the text a comment block with one line
    for the description, if it is present and non-empty, then one for the
    deprecation note, if it is present and non-empty, and leaves the text
    as it is when there is no such line; the text itself is never changed. *)
Theorem X14_comment_block (result : string)
    (description deprecated : option string) :
  let lines :=
    ((if truthy_opt description
      then ["* @remarks " +:+ default "" description] else []) ++
     (if truthy_opt deprecated
      then ["* @depcreated " +:+ default "" deprecated] else []))%list in
  attachComment result description deprecated =
    match lines with
    | [] => result
    | _ => ("/**" +:+ nl +:+ join nl lines +:+ nl +:+ "*/" +:+ nl) +:+ result
    end.
Proof.
  unfold attachComment.
  destruct description as [[|a d]|], deprecated as [[|b p]|]; reflexivity.
Qed.

(** ** Extending the registry *)

Lemma getFieldType_extend (fuel : nat) (types types' : FormatTypes) :
  (forall id fieldType, types_get types id = Some fieldType ->
                        types_get types' id = Some fieldType) ->
  forall typeId s,
    getFieldType fuel typeId types = Ok s ->
    getFieldType fuel typeId types' = Ok s.
Proof.
  intros Hextends. induction fuel as [|fuel IH]; intros typeId s;
    [discriminate|].
  rewrite !getFieldType_unfold. unfold getFieldType_body.
  destruct (types_get types typeId) as [fieldType|] eqn:Hget; [|discriminate].
  rewrite (Hextends typeId fieldType Hget).
  cbv zeta. destruct (truthy_opt (getTypeName fieldType)); [trivial|].
  destruct (negb (isInlineType fieldType)); [trivial|].
  assert (Hone : forall id (k : string -> result string),
    getFieldType fuel id types ≫= k = Ok s ->
    getFieldType fuel id types' ≫= k = Ok s).
  { intros id k H. apply bind_Ok in H as (x & Hx & H).
    now rewrite (IH id x Hx). }
  assert (Hmany : forall ids (k : list string -> result string),
    mapM (fun id => getFieldType fuel id types) ids ≫= k = Ok s ->
    mapM (fun id => getFieldType fuel id types') ids ≫= k = Ok s).
  { intros ids k H. apply bind_Ok in H as (l & Hl & H).
    apply mapM_Ok in Hl.
    assert (Hl' : mapM (fun id => getFieldType fuel id types') ids = Ok l).
    { apply mapM_Ok. eapply Forall2_impl; [exact Hl|]. simpl. auto. }
    now rewrite Hl'. }
  destruct (type fieldType); trivial; auto.
Qed.

(** X15: a registry that binds every id of another registry to the same
    descriptor, and possibly more ids, resolves every id to which the
    smaller registry gave a string to the same string: adding entries under
    new ids never changes an earlier resolution. *)
Theorem X15_registry_extension (types types' : FormatTypes) (typeId : TypeId)
    (s : string) :
  (forall id fieldType, types_get types id = Some fieldType ->
                        types_get types' id = Some fieldType) ->
  resolve types typeId s -> resolve types' typeId s.
Proof.
  intros Hextends [fuel H]. exists fuel.
  now apply (getFieldType_extend fuel types types' Hextends).
Qed.

Lemma X15_registry_extension_witness :
  resolve [ ("1", mkType TString None); ("2", mkType (TList "1") None);
            ("3", mkType TJSON None) ] "2" "string[]".
Proof.
  apply (X15_registry_extension
           [ ("1", mkType TString None); ("2", mkType (TList "1") None) ]
           [ ("1", mkType TString None); ("2", mkType (TList "1") None);
             ("3", mkType TJSON None) ] "2" "string[]").
  - intros id fieldType Hget. apply types_get_In in Hget. simpl in Hget.
    destruct Hget as [[= <- <-]|[[= <- <-]|[]]]; reflexivity.
  - now exists 2%nat.
Defined.

(** ** The JSON alias and its references *)

(** X16: whenever the registry holds a descriptor of kind JSON at some id,
    named or not and referred to or not, an assembled text declares the
    alias [JsonType]; so the name [JsonType] to which a nameless JSON
    descriptor resolves is always declared in the text that refers to it. *)
Theorem X16_json_reference_declared (fuel : nat) (formatResult : FormatResult)
    (typeId : TypeId) (fieldType : FormatType) (source : string) :
  types_get (types formatResult) typeId = Some fieldType ->
  type fieldType = TJSON ->
  codegen_source fuel formatResult = Ok source ->
  (name fieldType = None ->
   getFieldType (S fuel) typeId (types formatResult) = Ok "JsonType") /\
  exists definitions api,
    source = source_text sourceOfJsonType definitions api /\
    String.prefix (nl +:+ "    " +:+ sourceOfJsonType) source = true.
Proof.
  intros Hget Htype Hsource. split.
  - intros Hname. now resolve_step Hget Hname Htype.
  - apply codegen_source_Ok in Hsource
      as (definitions & exportSet & api & _ & _ & ->).
    assert (HJ : existsb (fun '(_, item) => is_JSON item) (types formatResult)
                 = true).
    { apply existsb_is_JSON. apply Exists_exists.
      exists (typeId, fieldType). split; [|assumption].
      apply list_elem_of_In. now apply types_get_In. }
    rewrite HJ. exists definitions, api. split; reflexivity.
Qed.

Lemma X16_json_reference_declared_witness :
  let formatResult :=
    mkResult [ ("1", mkType TJSON None) ] [("echo", Api (mkApi "1" "1" None None))] in
  getFieldType 2 "1" (types formatResult) = Ok "JsonType" /\
  exists definitions api,
    source_text sourceOfJsonType [""]
      (entries_block ["echo: (input: JsonType) => Promise<JsonType>"]) =
      source_text sourceOfJsonType definitions api /\
    String.prefix (nl +:+ "    " +:+ sourceOfJsonType)
      (source_text sourceOfJsonType [""]
         (entries_block ["echo: (input: JsonType) => Promise<JsonType>"])) = true.
Proof.
  intros formatResult.
  destruct (X16_json_reference_declared 1 formatResult "1" (mkType TJSON None)
              (source_text sourceOfJsonType [""]
                 (entries_block ["echo: (input: JsonType) => Promise<JsonType>"])))
    as [Href Hdecl]; try reflexivity.
  split; [now apply Href | exact Hdecl].
Defined.

(** ** What a nameless Record costs *)

Lemma getFieldType_nameless_Record (types : FormatTypes) (typeId : TypeId)
    (fieldType : FormatType) (itemTypeId : TypeId) :
  types_get types typeId = Some fieldType ->
  truthy_opt (name fieldType) = false ->
  type fieldType = TRecord itemTypeId ->
  forall fuel, getFieldType fuel typeId types = OutOfFuel.
Proof.
  intros Hget Hname Htype fuel. induction fuel as [|fuel IH]; [reflexivity|].
  rewrite getFieldType_unfold. unfold getFieldType_body.
  rewrite Hget. unfold getTypeName, isInlineType. cbv zeta.
  rewrite Hname, Htype. simpl. now rewrite IH.
Qed.

Lemma getFieldType_needs_failing (types : FormatTypes) (typeId wanted : TypeId) :
  needs types typeId wanted ->
  (forall fuel, fails (getFieldType fuel wanted types)) ->
  forall fuel, fails (getFieldType fuel typeId types).
Proof.
  intros Hneeds Hwanted fuel s Hs.
  destruct (getFieldType_Ok_needs types typeId wanted Hneeds fuel s Hs)
    as (fuel' & s' & _ & Hs').
  now apply (Hwanted fuel' s').
Qed.

(** X17: a nameless Record resolves at no recursion depth, in any registry
    and whatever its item type; so does every id that needs it, and a
    generation that resolves such an id (as the type of a field of an
    Object or Struct entry, or as the input or output of an endpoint)
    returns no text. *)
Theorem X17_nameless_record_blocks_generation
    (format : string -> result string) (fuel : nat)
    (formatResult : FormatResult) (root recordId : TypeId)
    (fieldType : FormatType) (itemTypeId : TypeId) :
  types_get (types formatResult) recordId = Some fieldType ->
  truthy_opt (name fieldType) = false ->
  type fieldType = TRecord itemTypeId ->
  needs (types formatResult) root recordId ->
  getFieldType fuel recordId (types formatResult) = OutOfFuel /\
  fails (getFieldType fuel root (types formatResult)) /\
  (resolved_by_codegen formatResult root ->
   fails (codegen format fuel formatResult)).
Proof.
  intros Hget Hname Htype Hneeds.
  assert (Hrecord : forall fuel',
            getFieldType fuel' recordId (types formatResult) = OutOfFuel).
  { now apply getFieldType_nameless_Record with fieldType itemTypeId. }
  assert (Hroot : fails (getFieldType fuel root (types formatResult))).
  { apply getFieldType_needs_failing with recordId; [assumption|].
    intros fuel'. rewrite Hrecord. apply fails_OutOfFuel. }
  split; [apply Hrecord|]. split; [exact Hroot|].
  intros Hresolved text Htext.
  unfold codegen in Htext. apply bind_Ok in Htext as (source & Hsource & _).
  apply codegen_source_Ok in Hsource
    as (definitions & exportSet & api & Hdefs & Hapi & _).
  destruct Hresolved
    as [(declaredId & declared & key & field & Hin & Hfield & <-)
       |(endpoint & Hendpoint & Hid)].
  - destruct (handleTypes_Ok_fields _ _ _ _ _ _ _ _ _ _ Hdefs Hin Hfield)
      as [s Hs].
    now apply (Hroot s).
  - destruct (handleEntries_Ok_endpoint _ _ _ _ Hendpoint _ Hapi)
      as (inputType & outputType & Hi & Ho).
    destruct Hid as [<-|<-]; [now apply (Hroot inputType)
                             |now apply (Hroot outputType)].
Qed.

Lemma X17_nameless_record_blocks_generation_witness :
  let types := [ ("1", mkType TString None); ("2", mkType (TRecord "1") None);
                 ("3", mkType (TList "2") None) ] in
  let formatResult := mkResult types [("all", Api (mkApi "1" "3" None None))] in
  getFieldType 5 "2" types = OutOfFuel /\
  fails (getFieldType 5 "3" types) /\
  fails (codegen Ok 5 formatResult).
Proof.
  intros types formatResult.
  destruct (X17_nameless_record_blocks_generation Ok 5 formatResult "3" "2"
              (mkType (TRecord "1") None) "1") as (Hrecord & Hroot & Hgen).
  - reflexivity.
  - reflexivity.
  - reflexivity.
  - apply (needs_item types "3" (mkType (TList "2") None) "2" "2").
    + reflexivity.
    + reflexivity.
    + simpl. tauto.
    + apply needs_self.
  - split; [exact Hrecord|]. split; [exact Hroot|]. apply Hgen. right.
    exists (mkApi "1" "3" None None). split; [|now right].
    apply (endpoint_here "all"). now left.
Defined.

(** ** Synthetic names and display names *)

Lemma handleTypes_Ok_definitions (fuel : nat) (types : FormatTypes)
    (formatTypes : FormatTypes) (exportSet exportSet' : gset string)
    (definitions : list string) :
  handleTypes fuel types exportSet formatTypes = Ok (definitions, exportSet') ->
  Forall2
    (fun entry definition =>
       if isInlineType entry.2 then definition = ""
       else exists fileds,
         mapM (handleField fuel types) (fields_of entry.2) = Ok fileds /\
         definition =
           match exported_name entry.2 with
           | Some typeName => exported_declaration typeName fileds
           | None => local_declaration (getTypeNameById entry.1) fileds
           end)
    formatTypes definitions.
Proof.
  revert exportSet exportSet' definitions.
  induction formatTypes as [|[id formatType] rest IH];
    intros exportSet exportSet' definitions H.
  - injection H as <- _. constructor.
  - rewrite handleTypes_cons in H.
    apply bind_Ok in H as ([definition exportSet1] & Hhead & H).
    apply bind_Ok in H as ([definitions' exportSet2] & Hrest & [= <- _]).
    constructor; [|now apply (IH exportSet1 exportSet2)].
    now apply handleType_Ok in Hhead as [Htext _].
Qed.

Lemma Forall2_In_left {A B} (P : A -> B -> Prop) (l : list A) (k : list B)
    (x : A) :
  Forall2 P l k -> In x l -> exists y, In y k /\ P x y.
Proof.
  induction 1 as [|x' y l k Hxy _ IH]; intros Hin; [destruct Hin|].
  destruct Hin as [->|Hin].
  - exists y. split; [now left | assumption].
  - destruct (IH Hin) as (y' & Hy' & HP). exists y'. split; [now right|easy].
Qed.

(** C10: an Object or Struct without a display name is declared by the text
    [type Type<id> = { ... }] whatever the export set holds, and leaves the
    set as it was.  So in a registry that holds an Object named
    ['Type' + K] and an unnamed Object at id [K], with no two entries
    exported under one display name and with all field types and endpoints
    resolving, the text is assembled, no duplicate-name error is thrown,
    and the declarations include both [export type Type<K> = { ... }] and
    [type Type<K> = { ... }]. *)
Theorem C10_synthetic_name_unchecked :
  (forall fuel registry exportSet typeId formatType fileds,
     isInlineType formatType = false ->
     name formatType = None ->
     mapM (handleField fuel registry) (fields_of formatType) = Ok fileds ->
     handleType fuel registry exportSet typeId formatType =
       Ok ("type Type" +:+ typeId +:+ " = {" +:+ nl +:+
           "        " +:+ join (",  " +:+ nl) fileds +:+ nl +:+
           "      }" +:+ nl +:+
           "      ", exportSet)) /\
  (forall fuel formatResult J K named unnamed,
     In (J, named) (types formatResult) ->
     In (K, unnamed) (types formatResult) ->
     isInlineType named = false ->
     name named = Some ("Type" +:+ K) ->
     isInlineType unnamed = false ->
     name unnamed = None ->
     NoDup (exported_names (types formatResult)) ->
     (forall id formatType key field,
        In (id, formatType) (types formatResult) ->
        In (key, field) (fields_of formatType) ->
        exists s,
          getFieldType fuel (typeId field) (types formatResult) = Ok s) ->
     (forall api, endpoint_of (entries formatResult) api ->
                  endpoint_resolves fuel (types formatResult) api) ->
     exists filedsJ filedsK jsonType definitions api,
       mapM (handleField fuel (types formatResult)) (fields_of named) =
         Ok filedsJ /\
       mapM (handleField fuel (types formatResult)) (fields_of unnamed) =
         Ok filedsK /\
       codegen_source fuel formatResult =
         Ok (source_text jsonType definitions api) /\
       In (nl +:+ "        export type Type" +:+ K +:+ " = {" +:+ nl +:+
           "          " +:+ join (",  " +:+ nl) filedsJ +:+ nl +:+
           "        }" +:+ nl +:+
           "        ") definitions /\
       In ("type Type" +:+ K +:+ " = {" +:+ nl +:+
           "        " +:+ join (",  " +:+ nl) filedsK +:+ nl +:+
           "      }" +:+ nl +:+
           "      ") definitions).
Proof.
  split.
  - intros fuel registry exportSet typeId formatType fileds Hinline Hname H.
    now rewrite (handleType_unnamed fuel registry exportSet typeId formatType
                   fileds Hinline Hname H).
  - intros fuel formatResult J K named unnamed HinJ HinK HinlineJ HnameJ
      HinlineK HnameK Hnodup Hfields Hendpoints.
    destruct (handleTypes_total fuel (types formatResult)
                (types formatResult) Hnodup Hfields)
      as (definitions & exportSet & Hdefs).
    destruct (handleEntries_total fuel (types formatResult)
                (entries formatResult) Hendpoints) as [api Hapi].
    pose proof (handleTypes_Ok_definitions _ _ _ _ _ _ Hdefs) as Hall.
    destruct (Forall2_In_left _ _ _ _ Hall HinJ) as (textJ & HtextJ & HJ).
    destruct (Forall2_In_left _ _ _ _ Hall HinK) as (textK & HtextK & HK).
    simpl in HJ, HK. rewrite HinlineJ in HJ. rewrite HinlineK in HK.
    destruct HJ as (filedsJ & HfJ & ->). destruct HK as (filedsK & HfK & ->).
    unfold exported_name in HtextJ, HtextK.
    rewrite HinlineJ, HnameJ in HtextJ. rewrite HinlineK, HnameK in HtextK.
    exists filedsJ, filedsK,
      (if existsb (fun '(_, item) => is_JSON item) (types formatResult)
       then sourceOfJsonType else ""), definitions, api.
    split; [exact HfJ|]. split; [exact HfK|]. split.
    + apply codegen_source_Ok. exists definitions, exportSet, api.
      now repeat split.
    + split; [exact HtextJ | exact HtextK].
Qed.

Lemma C10_synthetic_name_unchecked_witness :
  let types :=
    [ ("1", mkType TString None);
      ("2", mkType (TObject [("id", mkField "1" None None)]) None);
      ("3", mkType (TObject [("owner", mkField "2" None None)])
              (Some "Type2")) ] in
  let formatResult :=
    mkResult types [("get", Api (mkApi "1" "3" None None))] in
  handleType 1 types {["Type2"]} "2"
    (mkType (TObject [("id", mkField "1" None None)]) None) =
    Ok ("type Type2 = {
        id: string
      }
      ", {["Type2"]}) /\
  exists jsonType definitions api,
    codegen_source 1 formatResult =
      Ok (source_text jsonType definitions api) /\
    In "
        export type Type2 = {
          owner: Type2
        }
        " definitions /\
    In "type Type2 = {
        id: string
      }
      " definitions.
Proof.
  intros types formatResult. split.
  - apply (proj1 C10_synthetic_name_unchecked 1%nat types {["Type2"]} "2"
             (mkType (TObject [("id", mkField "1" None None)]) None)
             ["id: string"]); reflexivity.
  - destruct (proj2 C10_synthetic_name_unchecked 1%nat formatResult "3" "2"
                (mkType (TObject [("owner", mkField "2" None None)])
                   (Some "Type2"))
                (mkType (TObject [("id", mkField "1" None None)]) None))
      as (filedsJ & filedsK & jsonType & definitions & api
          & HfJ & HfK & Hsource & HJ & HK).
    + simpl. tauto.
    + simpl. tauto.
    + reflexivity.
    + reflexivity.
    + reflexivity.
    + reflexivity.
    + repeat constructor. intros H. inversion H.
    + intros id formatType key field Hin Hfield. simpl in Hin.
      destruct Hin as [[= <- <-]|[[= <- <-]|[[= <- <-]|[]]]];
        simpl in Hfield.
      * destruct Hfield.
      * destruct Hfield as [[= <- <-]|[]]. now exists "string".
      * destruct Hfield as [[= <- <-]|[]]. now exists "Type2".
    + intros endpoint Hendpoint.
      assert (Hget : endpoint = mkApi "1" "3" None None).
      { inversion Hendpoint as [k a es Hhere|k c es a Hbelow Hc]; subst.
        - now destruct Hhere as [[= ? ?]|[]].
        - now destruct Hbelow as [[=]|[]]. }
      subst endpoint. split; [now exists "string" | now exists "Type2"].
    + injection HfJ as <-. injection HfK as <-.
      exists jsonType, definitions, api.
      split; [exact Hsource|]. split; [exact HJ | exact HK].
Defined.

(** ** The outcome of a generation with colliding display names *)

Lemma exported_name_Some (formatType : FormatType) (typeName : string) :
  exported_name formatType = Some typeName <->
  isInlineType formatType = false /\ name formatType = Some typeName /\
  typeName <> "".
Proof.
  unfold exported_name.
  destruct (isInlineType formatType); [intuition discriminate|].
  destruct (name formatType) as [[|c s]|]; simpl.
  - split; [discriminate | intros (_ & [= <-] & H); now destruct H].
  - split; [intros [= <-]; now repeat split
           | intros (_ & [= <-] & _); reflexivity].
  - split; [discriminate | intros (_ & [=] & _)].
Qed.

Lemma exported_names_In (formatTypes : FormatTypes) (id : TypeId)
    (formatType : FormatType) (typeName : string) :
  In (id, formatType) formatTypes ->
  exported_name formatType = Some typeName ->
  typeName ∈ exported_names formatTypes.
Proof.
  intros Hin Hname. unfold exported_names. apply list_elem_of_omap.
  exists (id, formatType). split; [now apply list_elem_of_In | assumption].
Qed.

Lemma exported_twice (formatTypes : FormatTypes) (id id' : TypeId)
    (formatType formatType' : FormatType) (typeName : string) :
  In (id, formatType) formatTypes ->
  In (id', formatType') formatTypes ->
  id <> id' ->
  exported_name formatType = Some typeName ->
  exported_name formatType' = Some typeName ->
  ~ NoDup (exported_names formatTypes).
Proof.
  intros Hin Hin' Hids Hname Hname' Hnodup.
  apply in_split in Hin as (l1 & l2 & ->).
  rewrite exported_names_app, exported_names_cons, Hname in Hnodup.
  apply NoDup_app in Hnodup as (_ & Hdisjoint & Hrest).
  apply NoDup_cons in Hrest as [Hfresh _].
  apply in_app_or in Hin' as [Hin'|[[= ? ?]|Hin']]; [|congruence|].
  - apply (Hdisjoint typeName).
    + now apply (exported_names_In l1 id' formatType').
    + now left.
  - apply Hfresh. now apply (exported_names_In l2 id' formatType').
Qed.

(** The first entry whose exported name an earlier entry has exported. *)
Lemma first_collision (formatTypes : FormatTypes) :
  ~ NoDup (exported_names formatTypes) ->
  exists before collision after duplicate,
    formatTypes = (before ++ collision :: after)%list /\
    NoDup (exported_names before) /\
    exported_name collision.2 = Some duplicate /\
    duplicate ∈ exported_names before.
Proof.
  induction formatTypes as [|[id formatType] l IH] using rev_ind;
    intros Hdup.
  - destruct Hdup. apply NoDup_nil_2.
  - destruct (decide (NoDup (exported_names l))) as [Hl|Hl].
    + rewrite exported_names_app, exported_names_cons in Hdup.
      destruct (exported_name formatType) as [typeName|] eqn:Hname.
      * exists l, (id, formatType), [], typeName.
        split; [reflexivity|]. split; [assumption|].
        split; [assumption|].
        destruct (decide (typeName ∈ exported_names l)) as [Hin|Hnin];
          [assumption|].
        destruct Hdup. apply NoDup_app. split; [assumption|].
        split; [|repeat constructor; intros H; inversion H].
        intros x Hx Hx'. apply list_elem_of_singleton in Hx' as ->.
        now apply Hnin.
      * destruct Hdup. now rewrite app_nil_r.
    + destruct (IH Hl) as (before & collision & after & duplicate
                           & -> & Hnodup & Hname & Hin).
      exists before, collision, (after ++ [(id, formatType)])%list, duplicate.
      split; [now rewrite <- app_assoc|]. now repeat split.
Qed.

Lemma handleTypes_app (fuel : nat) (types : FormatTypes)
    (before after : FormatTypes) (exportSet : gset string) :
  handleTypes fuel types exportSet (before ++ after)%list =
    ('(definitions, exportSet) ← handleTypes fuel types exportSet before;
     '(definitions', exportSet) ← handleTypes fuel types exportSet after;
     Ok ((definitions ++ definitions')%list, exportSet)).
Proof.
  revert exportSet. induction before as [|[id formatType] before IH];
    intros exportSet.
  - simpl. now destruct (handleTypes fuel types exportSet after) as [[]| |].
  - simpl app. rewrite !handleTypes_cons.
    destruct (handleType fuel types exportSet id formatType)
      as [[definition exportSet1]| |]; simpl; [|reflexivity..].
    rewrite IH.
    destruct (handleTypes fuel types exportSet1 before)
      as [[definitions exportSet2]| |]; simpl; [|reflexivity..].
    now destruct (handleTypes fuel types exportSet2 after) as [[]| |].
Qed.

Lemma resolution_failure_bind {A B} (m : result A) (k : A -> result B) :
  resolution_failure m -> resolution_failure (m ≫= k).
Proof.
  intros [->|[->|[fieldType ->]]]; simpl.
  - now left.
  - right. now left.
  - right. right. now exists fieldType.
Qed.

Lemma resolution_failure_not_duplicate {A} (r : result A) (typeName : string) :
  resolution_failure r -> r <> Throw (DuplicateName typeName).
Proof. intros [->|[->|[fieldType ->]]]; discriminate. Qed.

Lemma handleField_outcome (fuel : nat) (types : FormatTypes)
    (fields : FormatFields) :
  (exists fileds, mapM (handleField fuel types) fields = Ok fileds) \/
  resolution_failure (mapM (handleField fuel types) fields).
Proof.
  destruct (mapM (handleField fuel types) fields) as [fileds|e|] eqn:H.
  - left. now exists fileds.
  - right. apply mapM_Throw in H as ([key field] & _ & H).
    unfold handleField in H.
    apply bind_Throw in H as [H|(t & _ & H)]; [|discriminate].
    apply getFieldType_Throw in H
      as (wanted & _ & [[-> _]|(fieldType & tag & -> & _)]).
    + right. now left.
    + right. right. now exists fieldType.
  - right. now left.
Qed.

Lemma handleType_outcome (fuel : nat) (types : FormatTypes)
    (exportSet : gset string) (typeId : string) (formatType : FormatType) :
  (exists text exportSet',
     handleType fuel types exportSet typeId formatType =
       Ok (text, exportSet')) \/
  (exists typeName,
     handleType fuel types exportSet typeId formatType =
       Throw (DuplicateName typeName)) \/
  resolution_failure (handleType fuel types exportSet typeId formatType).
Proof.
  destruct (isInlineType formatType) eqn:Hinline.
  - left. rewrite handleType_inline by assumption. eauto.
  - rewrite handleType_declared by assumption.
    destruct (handleField_outcome fuel types (fields_of formatType))
      as [[fileds ->]|Hfail].
    + simpl. destruct (truthy_opt (name formatType)); [|left; eauto].
      destruct (decide (default "" (name formatType) ∈ exportSet));
        [right; left; eauto | left; eauto].
    + right. right. now apply resolution_failure_bind.
Qed.

Lemma handleTypes_outcomes (fuel : nat) (types formatTypes : FormatTypes)
    (exportSet : gset string) :
  (exists definitions exportSet',
     handleTypes fuel types exportSet formatTypes =
       Ok (definitions, exportSet')) \/
  (exists typeName,
     handleTypes fuel types exportSet formatTypes =
       Throw (DuplicateName typeName)) \/
  resolution_failure (handleTypes fuel types exportSet formatTypes).
Proof.
  revert exportSet.
  induction formatTypes as [|[id formatType] rest IH]; intros exportSet.
  - left. now exists [], exportSet.
  - rewrite handleTypes_cons.
    destruct (handleType_outcome fuel types exportSet id formatType)
      as [(text & exportSet1 & ->)|[[typeName ->]|Hfail]].
    + simpl.
      destruct (IH exportSet1)
        as [(definitions & exportSet2 & ->)|[[typeName ->]|Hfail]].
      * left. simpl. eauto.
      * right. left. now exists typeName.
      * right. right. now apply resolution_failure_bind.
    + right. left. now exists typeName.
    + right. right. now apply resolution_failure_bind.
Qed.

(** Without a collision among its exported names, a run of entries from
    the empty export set returns or ends in the failure of a resolution. *)
Lemma handleTypes_distinct_outcome (fuel : nat)
    (types formatTypes : FormatTypes) :
  NoDup (exported_names formatTypes) ->
  (exists definitions exportSet,
     handleTypes fuel types ∅ formatTypes = Ok (definitions, exportSet)) \/
  resolution_failure (handleTypes fuel types ∅ formatTypes).
Proof.
  intros Hnodup.
  destruct (handleTypes_outcomes fuel types formatTypes ∅)
    as [H|[[typeName H]|H]]; [now left| |now right].
  apply handleTypes_duplicate in H
    as (before & [id formatType] & after & -> & Hname & [Hin|Hin]);
    [now apply not_elem_of_empty in Hin|].
  rewrite exported_names_app, exported_names_cons in Hnodup.
  simpl in Hname. rewrite Hname in Hnodup.
  apply NoDup_app in Hnodup as (_ & Hdisjoint & _).
  destruct (Hdisjoint typeName Hin). now left.
Qed.

Lemma fields_of_inline (formatType : FormatType) :
  isInlineType formatType = true -> fields_of formatType = [].
Proof.
  unfold isInlineType, fields_of.
  now destruct (type formatType).
Qed.

Lemma collision_throws (fuel : nat) (types before after : FormatTypes)
    (collision : TypeId * FormatType) (duplicate : string) :
  NoDup (exported_names before) ->
  exported_name collision.2 = Some duplicate ->
  duplicate ∈ exported_names before ->
  (forall id formatType key field,
     In (id, formatType) (before ++ [collision])%list ->
     In (key, field) (fields_of formatType) ->
     exists s, getFieldType fuel (typeId field) types = Ok s) ->
  handleTypes fuel types ∅ (before ++ collision :: after)%list =
    Throw (DuplicateName duplicate).
Proof.
  intros Hnodup Hname Hin Hfields. rewrite handleTypes_app.
  destruct (handleTypes_total fuel types before Hnodup)
    as (definitions & exportSet & Hbefore).
  { intros id formatType key field Hentry.
    apply (Hfields id formatType key field), in_or_app. now left. }
  rewrite Hbefore. cbn [mbind result_bind].
  destruct collision as [id formatType]. simpl in Hname.
  rewrite handleTypes_cons.
  apply exported_name_Some in Hname as (Hinline & Hnamed & Hne).
  destruct (handleField_total fuel types (fields_of formatType))
    as [fileds Hfileds].
  { intros key field.
    apply (Hfields id formatType key field), in_or_app. right. now left. }
  rewrite (handleType_named fuel types exportSet id formatType duplicate
             fileds Hinline Hnamed Hne Hfileds).
  rewrite decide_True; [reflexivity|].
  apply handleTypes_Ok_exported in Hbefore as (-> & _ & _).
  apply elem_of_union. left. now apply elem_of_list_to_set.
Qed.

Lemma collision_resolution_failure (fuel : nat)
    (types before after : FormatTypes) (collision : TypeId * FormatType)
    (id : TypeId) (formatType : FormatType) (key : string)
    (field : FormatField) :
  NoDup (exported_names before) ->
  In (id, formatType) (before ++ [collision])%list ->
  In (key, field) (fields_of formatType) ->
  fails (getFieldType fuel (typeId field) types) ->
  resolution_failure
    (handleTypes fuel types ∅ (before ++ collision :: after)%list).
Proof.
  intros Hnodup Hentry Hfield Hfails. rewrite handleTypes_app.
  destruct (handleTypes_distinct_outcome fuel types before Hnodup)
    as [(definitions & exportSet & Hbefore)|Hfail];
    [|now apply resolution_failure_bind].
  rewrite Hbefore. cbn [mbind result_bind].
  apply in_app_or in Hentry as [Hentry|[->|[]]].
  - destruct (handleTypes_Ok_fields _ _ _ _ _ _ _ _ _ _ Hbefore Hentry Hfield)
      as [s Hs].
    now destruct (Hfails s).
  - rewrite handleTypes_cons. do 2 apply resolution_failure_bind.
    rewrite handleType_declared.
    + apply resolution_failure_bind.
      destruct (handleField_outcome fuel types (fields_of formatType))
        as [[fileds Hfileds]|Hfail]; [|assumption].
      destruct (mapM_Ok_In _ _ _ _ Hfileds Hfield) as [y Hy].
      unfold handleField in Hy. apply bind_Ok in Hy as (s & Hs & _).
      now destruct (Hfails s).
    + destruct (isInlineType formatType) eqn:Hinline; [|reflexivity].
      rewrite (fields_of_inline formatType Hinline) in Hfield.
      destruct Hfield.
Qed.

(** C2, amended: when two Object/Struct descriptors of the registry carry
    the same non-empty display name, generation returns no text, whatever
    the pretty-printer and the recursion depth allowed.  The registry then
    has a first entry whose exported name an earlier entry has exported.
    When the field types of the entries up to and including that one all
    resolve, generation throws the duplicate-name error for that name,
    whatever the later entries hold; when one of these field types fails to
    resolve, generation ends in the failure of a resolution (the lookup
    error, the unsupported-field error, or recursion without end), and in
    no duplicate-name error. *)
Theorem C2_duplicate_name_fails (format : string -> result string)
    (fuel : nat) (formatResult : FormatResult) (typeName : string)
    (id id' : TypeId) (formatType formatType' : FormatType) :
  In (id, formatType) (types formatResult) ->
  In (id', formatType') (types formatResult) ->
  id <> id' ->
  isInlineType formatType = false ->
  isInlineType formatType' = false ->
  name formatType = Some typeName ->
  name formatType' = Some typeName ->
  typeName <> "" ->
  fails (codegen format fuel formatResult) /\
  exists before collision after duplicate,
    types formatResult = (before ++ collision :: after)%list /\
    NoDup (exported_names before) /\
    exported_name collision.2 = Some duplicate /\
    duplicate ∈ exported_names before /\
    ((forall declaredId declared key field,
        In (declaredId, declared) (before ++ [collision])%list ->
        In (key, field) (fields_of declared) ->
        exists s,
          getFieldType fuel (typeId field) (types formatResult) = Ok s) ->
     codegen format fuel formatResult = Throw (DuplicateName duplicate)) /\
    (forall declaredId declared key field,
       In (declaredId, declared) (before ++ [collision])%list ->
       In (key, field) (fields_of declared) ->
       fails (getFieldType fuel (typeId field) (types formatResult)) ->
       resolution_failure (codegen format fuel formatResult) /\
       forall other,
         codegen format fuel formatResult <> Throw (DuplicateName other)).
Proof.
  intros Hin Hin' Hids Hinline Hinline' Hname Hname' Hne.
  assert (Hfails :
    fails (handleTypes fuel (types formatResult) ∅ (types formatResult))).
  { now apply (handleTypes_duplicate_fails fuel (types formatResult) typeName
                 id id' formatType formatType'). }
  split; [now apply fails_codegen|].
  destruct (first_collision (types formatResult))
    as (before & collision & after & duplicate
        & Hsplit & Hnodup & Hexported & Hseen).
  { apply (exported_twice _ id id' formatType formatType' typeName);
      try assumption; now apply exported_name_Some. }
  exists before, collision, after, duplicate.
  split; [assumption|]. split; [assumption|]. split; [assumption|].
  split; [assumption|]. split.
  - intros Hfields.
    pose proof (collision_throws fuel (types formatResult) before after
                  collision duplicate Hnodup Hexported Hseen Hfields) as H.
    rewrite <- Hsplit in H. unfold codegen, codegen_source. now rewrite H.
  - intros declaredId declared key field Hentry Hfield Hfield_fails.
    pose proof (collision_resolution_failure fuel (types formatResult)
                  before after collision declaredId declared key field
                  Hnodup Hentry Hfield Hfield_fails) as H.
    rewrite <- Hsplit in H.
    assert (Hgen : resolution_failure (codegen format fuel formatResult)).
    { unfold codegen, codegen_source.
      now do 2 apply resolution_failure_bind. }
    split; [exact Hgen|].
    intros other. now apply resolution_failure_not_duplicate.
Qed.

Lemma C2_duplicate_name_fails_witness :
  let formatResult :=
    mkResult
      [ ("1", mkType (TObject []) (Some "Foo"));
        ("2", mkType (TObject []) (Some "Foo"));
        ("3", mkType (TObject [("a", mkField "99" None None)]) (Some "Bar")) ]
      [("ping", Api (mkApi "1" "1" None None))] in
  fails (codegen Ok 1 formatResult) /\
  codegen Ok 1 formatResult = Throw (DuplicateName "Foo").
Proof.
  intros formatResult.
  destruct (C2_duplicate_name_fails Ok 1 formatResult "Foo" "1" "2"
              (mkType (TObject []) (Some "Foo"))
              (mkType (TObject []) (Some "Foo")))
    as (Hfails & before & collision & after & duplicate
        & Hsplit & Hnodup & Hexported & Hseen & Hthrows & _).
  - simpl. tauto.
  - simpl. tauto.
  - discriminate.
  - reflexivity.
  - reflexivity.
  - reflexivity.
  - reflexivity.
  - discriminate.
  - split; [exact Hfails|].
    destruct before as [|b1 [|b2 [|b3 before]]]; simpl in Hsplit;
      injection Hsplit as; subst.
    + inversion Hseen.
    + injection Hexported as <-. apply Hthrows.
      intros declaredId declared key field Hentry Hfield.
      destruct Hentry as [[= <- <-]|[[= <- <-]|[]]]; destruct Hfield.
    + apply NoDup_cons in Hnodup as [Hfresh _]. destruct Hfresh. now left.
    + now destruct before.
Defined.

(** A registry with a collision at its first two entries and, after them,
    an Object whose field refers to an absent id: the duplicate-name error
    is thrown, at every recursion depth, and the later entry plays no part. *)
Example collision_before_dangling_field :
  forall fuel,
    codegen Ok fuel
      (mkResult
         [ ("1", mkType (TObject []) (Some "Foo"));
           ("2", mkType (TObject []) (Some "Foo"));
           ("3", mkType (TObject [("a", mkField "99" None None)])
                   (Some "Bar")) ]
         []) = Throw (DuplicateName "Foo").
Proof. reflexivity. Qed.
